(** * Quorum Vault auto-unsealer: the unseal orchestration of [src/main.js]

    A shallow embedding of [main.js] and the properties of its control
    flow.  The program talks to three parties (the credential file, the
    primary Vault, the target Vault nodes) and writes console lines; the
    embedding makes every such action an [event] of a trace and takes the
    answers of the three parties from a [World]. *)

From Stdlib Require Import List String Ascii ZArith Bool Lia DecimalString.
Import ListNotations.
Open Scope string_scope.
Open Scope Z_scope.

(** ** JavaScript values of the scalar response fields

    The fields [sealed], [t] and [progress] of a seal-status body are
    read with JavaScript's coercions ([if (x)], [x || 3], the second
    argument of [slice]).  [jsval] holds the scalar values such a field
    can carry under the wire contract [{sealed: bool, t: int,
    progress: int}], together with the ways a field can be void: an
    absent field reads as [JUndefined], a JSON [null] as [JNull].
    Numbers are the integer ones. *)
Inductive jsval : Type :=
| JUndefined
| JNull
| JBool (b : bool)
| JNum (n : Z).

(** ToBoolean. *)
Definition truthy (v : jsval) : bool :=
  match v with
  | JUndefined => false
  | JNull => false
  | JBool b => b
  | JNum n => negb (n =? 0)
  end.

(** [a || b]. *)
Definition js_or (a b : jsval) : jsval := if truthy a then a else b.

(** ToIntegerOrInfinity, on the values above. *)
Definition ToIntegerOrInfinity (v : jsval) : Z :=
  match v with
  | JUndefined => 0
  | JNull => 0
  | JBool b => if b then 1 else 0
  | JNum n => n
  end.

(** [arr.slice(0, end)] (Array.prototype.slice with start 0): a negative
    [end] counts from the back, everything is clamped to the array. *)
Definition slice0 {A : Type} (arr : list A) (relativeEnd : Z) : list A :=
  let len := Z.of_nat (List.length arr) in
  let final :=
    if relativeEnd <? 0 then Z.max (len + relativeEnd) 0
    else Z.min relativeEnd len in
  firstn (Z.to_nat final) arr.

(** ToBoolean of a string: only the empty string is falsy. *)
Definition nonempty (s : string) : bool :=
  match s with
  | EmptyString => false
  | String _ _ => true
  end.

(** [s.split(sep)] for a one-character separator: never an empty array,
    the empty string splits into one empty piece.  Strings are byte
    strings; splitting at an ASCII separator cuts a UTF-8 text where it
    cuts the JavaScript string. *)
Fixpoint split (sep : ascii) (s : string) : list string :=
  match s with
  | EmptyString => [EmptyString]
  | String c rest =>
      if Ascii.eqb c sep then EmptyString :: split sep rest
      else match split sep rest with
           | piece :: pieces => String c piece :: pieces
           | [] => [String c EmptyString]
           end
  end.

(** ** Configuration (main.js lines 7-18) *)

Module Config.

(** [process.env]: a variable is unset ([None], JavaScript's [undefined])
    or holds a string. *)
Definition environment := string -> option string.

(** [process.env.X || d]: the default stands in for an unset and for an
    empty variable. *)
Definition env_or (v : option string) (d : string) : string :=
  match v with
  | Some s => if nonempty s then s else d
  | None => d
  end.

(** The fields of [config] that the orchestration reads.  [pollIntervalMs]
    feeds only [setInterval] and [insecureTls] only the TLS agent. *)
Record config : Type := {
  primaryVaultAddr : string;
  jwtTokenPath : string;
  k8sAuthRole : string;
  vaultNamespace : string;
  unsealKeysPath : string;
  targetVaultAddrs : list string
}.

(** Line 14:
    [(process.env.TARGET_VAULT_ADDRS || '').split(',').filter(addr => addr)]. *)
Definition parseTargetVaultAddrs (v : option string) : list string :=
  filter nonempty (split "," (env_or v "")).

Definition load (env : environment) : config := {|
  primaryVaultAddr :=
    env_or (env "PRIMARY_VAULT_ADDR") "https://vault.vault.svc.cluster.local:8200";
  jwtTokenPath := env_or (env "JWT_TOKEN_PATH") "/var/run/secrets/vault/token";
  k8sAuthRole := env_or (env "K8S_AUTH_ROLE") "auto-unsealer";
  vaultNamespace := env_or (env "VAULT_NAMESPACE") "vault";
  unsealKeysPath :=
    env_or (env "UNSEAL_KEYS_PATH") "kv/data/internal/config/unseal-keys";
  targetVaultAddrs := parseTargetVaultAddrs (env "TARGET_VAULT_ADDRS")
|}.

End Config.
Export Config.

(** ** Responses, errors, events

    Bodies are typed by the wire contracts of the four requests.  A field
    that the body lacks is [JUndefined] or [None]; a body that is not an
    object at all (an empty or a plain-text body) reads every field as
    [undefined], which is the record whose fields are all absent.  On a
    [null] body the first field read throws a [TypeError] inside the
    same [try] block as the request: to the program that is the request
    answered by [Throw] of that error. *)

(** Body of [GET /v1/sys/seal-status] and of [PUT /v1/sys/unseal]. *)
Record SealStatus : Type := {
  sealed : jsval;
  t : jsval;
  progress : jsval
}.

(** Body of the login request: [response.data.auth.client_token].
    [auth = None] is a body without a usable [auth] object. *)
Record LoginBody : Type := {
  auth : option (option string)
}.

(** Body of the key-value read: [response.data.data.data].  The outer
    option is [response.data.data], the inner one the key collection
    [response.data.data.data]; the collection lists its properties in
    the object's own enumeration order, the order [Object.values]
    walks. *)
Record KvBody : Type := {
  data : option (option (list (string * string)))
}.

(** A thrown value.  Errors of the HTTP client carry [response] when the
    server answered with an error status; [TypeError]s, [Error]s and file
    errors have none. *)
Record jserror : Type := {
  response : option (Z * string);
  message : string
}.

(** [new Error(msg)], and the engine's [TypeError]. *)
Definition Error (msg : string) : jserror :=
  {| response := None; message := msg |}.

Definition TypeError (msg : string) : jserror :=
  {| response := None; message := msg |}.

(** How an awaited call or a block ends. *)
Inductive completion (A : Type) : Type :=
| Normal (a : A)
| Throw (e : jserror).
Arguments Normal {A} a.
Arguments Throw {A} e.

(** The console lines, one constructor per call site (line of main.js)
    with the values interpolated there. *)
Inductive line : Type :=
| login_attempt                                     (* 38 *)
| login_ok                                          (* 52 *)
| token_error (msg : string)                        (* 55 *)
| fetching_keys                                     (* 67 *)
| fetched_keys (n : nat)                            (* 82 *)
| fetch_error (msg : string)                        (* 86 *)
| checking (targetAddr : string)                    (* 97 *)
| is_sealed (targetAddr : string)                   (* 101 *)
| submitting (targetAddr : string)                  (* 108 *)
| now_unsealed (targetAddr : string)                (* 112 *)
| unseal_progress (targetAddr : string) (progress threshold : jsval) (* 117 *)
| already_unsealed (targetAddr : string)            (* 121 *)
| error_response (targetAddr : string) (status : Z) (body : string) (* 126 *)
| error_connecting (targetAddr : string) (msg : string)            (* 128 *)
| cycle_start                                       (* 137 *)
| no_targets.                                       (* 139 *)

(** What the program does to the outside, one constructor per call
    site. *)
Inductive event : Type :=
| console_log (l : line)
| console_error (l : line)
| console_warn (l : line)
| fs_readFile (path : string)                        (* 40 *)
| api_post (url jwt role : string)                   (* 41 *)
| api_get_keys (url token namespace : string)        (* 68 *)
| api_get (url : string)                             (* 98 *)
| api_put (url key : string).                        (* 109 *)

(** The answers one run of [checkAndUnseal] receives.  The answer to an
    unseal request may depend on the keys this run has sent before it
    ([sent], oldest first). *)
Record World : Type := {
  read_file : string -> completion string;
  post_login : string -> string -> string -> completion LoginBody;
  get_keys : string -> string -> string -> completion KvBody;
  get_status : string -> completion SealStatus;
  put_unseal : string -> list string -> string -> completion SealStatus
}.

(** ** Effects: a trace and a completion *)

Definition io (A : Type) : Type := (list event * completion A)%type.

Definition ret {A : Type} (a : A) : io A := ([], Normal a).

Definition throw {A : Type} (e : jserror) : io A := ([], Throw e).

Definition bind {A B : Type} (m : io A) (k : A -> io B) : io B :=
  match m with
  | (tr, Throw e) => (tr, Throw e)
  | (tr, Normal a) => let (tr', r) := k a in ((tr ++ tr')%list, r)
  end.

(** [try { m } catch (error) { handler }]. *)
Definition try_catch {A : Type} (m : io A) (handler : jserror -> io A) : io A :=
  match m with
  | (tr, Throw e) => let (tr', r) := handler e in ((tr ++ tr')%list, r)
  | (tr, Normal a) => (tr, Normal a)
  end.

(** [await call]: the request is an event, its answer comes from the
    world. *)
Definition await {A : Type} (ev : event) (answer : completion A) : io A :=
  ([ev], answer).

Definition emit (ev : event) : io unit := ([ev], Normal tt).

Definition trace {A : Type} (m : io A) : list event := fst m.
Definition outcome {A : Type} (m : io A) : completion A := snd m.

Declare Scope io_scope.
Delimit Scope io_scope with io.
Notation "x <- m ;; k" := (bind m (fun x => k))
  (at level 100, m at next level, right associativity) : io_scope.
Notation "m ;; k" := (bind m (fun _ => k))
  (at level 100, right associativity) : io_scope.
Open Scope io_scope.

(** ** The program *)

Section Program.

Variable cfg : config.
Variable w : World.

(** [getPrimaryVaultToken], lines 37-58. *)
Definition getPrimaryVaultToken : io string :=
  emit (console_log login_attempt) ;;
  try_catch
    (jwt <- await (fs_readFile (jwtTokenPath cfg))
                  (read_file w (jwtTokenPath cfg)) ;;
     let url := primaryVaultAddr cfg ++ "/v1/auth/kubernetes/login" in
     resp <- await (api_post url jwt (k8sAuthRole cfg))
                   (post_login w url jwt (k8sAuthRole cfg)) ;;
     token <- match auth resp with
              | None =>
                  throw (TypeError
                    "Cannot read properties of undefined (reading 'client_token')")
              | Some tok => ret tok
              end ;;
     match token with
     | Some tok =>
         if nonempty tok then
           emit (console_log login_ok) ;; ret tok
         else throw (Error "Client token not found in login response.")
     | None => throw (Error "Client token not found in login response.")
     end)
    (fun error =>
       emit (console_error (token_error (message error))) ;;
       throw error).

(** [Object.values(keys)]. *)
Definition Object_values (keys : list (string * string)) : list string :=
  map snd keys.

(** [getUnsealKeys], lines 64-89. *)
Definition getUnsealKeys : io (list string) :=
  try_catch
    (token <- getPrimaryVaultToken ;;
     emit (console_log fetching_keys) ;;
     let url := primaryVaultAddr cfg ++ "/v1/" ++ unsealKeysPath cfg in
     resp <- await (api_get_keys url token (vaultNamespace cfg))
                   (get_keys w url token (vaultNamespace cfg)) ;;
     keys <- match data resp with
             | None =>
                 throw (TypeError
                   "Cannot read properties of undefined (reading 'data')")
             | Some keys => ret keys
             end ;;
     match keys with
     | None => throw (Error "No unseal keys found or path is incorrect.")
     | Some keys =>
         if (List.length (Object_values keys) =? 0)%nat then
           throw (Error "No unseal keys found or path is incorrect.")
         else
           emit (console_log (fetched_keys (List.length (Object_values keys)))) ;;
           ret (Object_values keys)
     end)
    (fun error =>
       emit (console_error (fetch_error (message error))) ;;
       throw error).

(** The loop [for (const key of keysToUse)], lines 107-119; [sent] are
    the keys of the earlier iterations. *)
Fixpoint submit (targetAddr : string) (sent keysToUse : list string) : io unit :=
  match keysToUse with
  | [] => ret tt
  | key :: rest =>
      emit (console_log (submitting targetAddr)) ;;
      let url := targetAddr ++ "/v1/sys/unseal" in
      unsealRes <- await (api_put url key) (put_unseal w url sent key) ;;
      if negb (truthy (sealed unsealRes)) then
        emit (console_log (now_unsealed targetAddr))
      else
        emit (console_log
                (unseal_progress targetAddr (progress unsealRes) (t unsealRes))) ;;
        submit targetAddr (sent ++ [key])%list rest
  end.

(** Line 105: [unsealKeys.slice(0, statusRes.data.t || 3)]. *)
Definition keysToUse (unsealKeys : list string) (statusRes : SealStatus)
  : list string :=
  slice0 unsealKeys (ToIntegerOrInfinity (js_or (t statusRes) (JNum 3))).

(** [checkAndUnseal], lines 95-131. *)
Definition checkAndUnseal (targetAddr : string) : io unit :=
  try_catch
    (emit (console_log (checking targetAddr)) ;;
     let url := targetAddr ++ "/v1/sys/seal-status" in
     statusRes <- await (api_get url) (get_status w url) ;;
     if truthy (sealed statusRes) then
       emit (console_log (is_sealed targetAddr)) ;;
       unsealKeys <- getUnsealKeys ;;
       submit targetAddr [] (keysToUse unsealKeys statusRes)
     else
       emit (console_log (already_unsealed targetAddr)))
    (fun error =>
       match response error with
       | Some (status, body) =>
           emit (console_error (error_response targetAddr status body))
       | None =>
           emit (console_error (error_connecting targetAddr (message error)))
       end).

End Program.

(** [pollVaultNodes], lines 136-145.  [forEach] starts one
    [checkAndUnseal] per configured address and awaits none of them, so
    the runs interleave at their network calls: a sweep is its own
    console lines and the list of the runs it started, in the order of
    the target list.  [worlds i] is what the run at position [i] gets
    answered. *)
Record Sweep : Type := {
  sweep_console : list event;
  sweep_runs : list (io unit)
}.

Fixpoint forEach {A B : Type} (f : nat -> A -> B) (i : nat) (arr : list A) : list B :=
  match arr with
  | [] => []
  | x :: rest => f i x :: forEach f (S i) rest
  end.

Definition pollVaultNodes (cfg : config) (worlds : nat -> World) : Sweep :=
  if (List.length (targetVaultAddrs cfg) =? 0)%nat then
    {| sweep_console := [console_log cycle_start; console_warn no_targets];
       sweep_runs := [] |}
  else
    {| sweep_console := [console_log cycle_start];
       sweep_runs :=
         forEach (fun i targetAddr => checkAndUnseal cfg (worlds i) targetAddr)
                 0%nat (targetVaultAddrs cfg) |}.

(** Lines 156-157 of [main]: one sweep at once, then one per tick of the
    timer.  [worlds c] answers the runs of cycle [c]. *)
Definition cycles (cfg : config) (worlds : nat -> nat -> World) (ticks : nat)
  : list Sweep :=
  map (fun c => pollVaultNodes cfg (worlds c)) (seq 0 (S ticks)).

(** ** Observations on a trace *)

(** The keys a run submitted to an unseal endpoint, oldest first. *)
Fixpoint submissions (tr : list event) : list string :=
  match tr with
  | [] => []
  | api_put _ key :: tr' => key :: submissions tr'
  | _ :: tr' => submissions tr'
  end.

(** The calls of the Key Source Client: reading the credential, the
    login, the key read. *)
Definition is_key_source_call (ev : event) : bool :=
  match ev with
  | fs_readFile _ => true
  | api_post _ _ _ => true
  | api_get_keys _ _ _ => true
  | _ => false
  end.

Definition key_source_calls (tr : list event) : list event :=
  filter is_key_source_call tr.

(** The status probes of a run. *)
Definition is_probe (ev : event) : bool :=
  match ev with
  | api_get _ => true
  | _ => false
  end.

(** The console line the catch block of [checkAndUnseal] writes for
    [error] (lines 125-129). *)
Definition reported (targetAddr : string) (error : jserror) : event :=
  match response error with
  | Some (status, body) => console_error (error_response targetAddr status body)
  | None => console_error (error_connecting targetAddr (message error))
  end.

(** The keys the loop of lines 107-119 gets to, as a function of the
    answers alone: every key is sent, and the next one only after an
    answer that still reports [sealed]. *)
Fixpoint loop_keys (w : World) (url : string) (sent keys : list string)
  : list string :=
  match keys with
  | [] => []
  | key :: rest =>
      key :: match put_unseal w url sent key with
             | Normal unsealRes =>
                 if truthy (sealed unsealRes)
                 then loop_keys w url (sent ++ [key])%list rest
                 else []
             | Throw _ => []
             end
  end.

(** The same world with another answer to the status probe. *)
Definition with_status (w : World) (answer : completion SealStatus) : World := {|
  read_file := read_file w;
  post_login := post_login w;
  get_keys := get_keys w;
  get_status := fun _ => answer;
  put_unseal := put_unseal w
|}.

(** A seal status with the threshold field left out. *)
Definition omit_t (s : SealStatus) : SealStatus :=
  {| sealed := sealed s; t := JUndefined; progress := progress s |}.

(** ** The outcome of a run, in the words of the specification

    [checkAndUnseal] returns no value: what a run came to shows only in
    the console lines it wrote.  [Outcome_of] reads the specification's
    outcome off those lines: line 121 is AlreadyUnsealed, line 112 is
    Unsealed, a line of the catch block (126 or 128) is Failed, for the
    key fetch when [getUnsealKeys] reported its own failure before it
    (line 86) and for the target otherwise; a run that wrote none of
    them went through all its keys and the target is still sealed. *)
Inductive FailureReason : Type :=
| key_fetch_error
| unreachable.

Inductive Outcome : Type :=
| AlreadyUnsealed
| Unsealed
| PartiallySubmitted
| Failed (reason : FailureReason).

Definition says_already_unsealed (ev : event) : bool :=
  match ev with
  | console_log (already_unsealed _) => true
  | _ => false
  end.

Definition says_now_unsealed (ev : event) : bool :=
  match ev with
  | console_log (now_unsealed _) => true
  | _ => false
  end.

Definition says_run_failed (ev : event) : bool :=
  match ev with
  | console_error (error_response _ _ _) => true
  | console_error (error_connecting _ _) => true
  | _ => false
  end.

Definition says_fetch_failed (ev : event) : bool :=
  match ev with
  | console_error (fetch_error _) => true
  | _ => false
  end.

Definition Outcome_of (tr : list event) : Outcome :=
  if existsb says_already_unsealed tr then AlreadyUnsealed
  else if existsb says_now_unsealed tr then Unsealed
  else if existsb says_run_failed tr then
    if existsb says_fetch_failed tr then Failed key_fetch_error
    else Failed unreachable
  else PartiallySubmitted.

(** Any error line of the console. *)
Definition is_console_error (ev : event) : bool :=
  match ev with
  | console_error _ => true
  | _ => false
  end.

(** ** Scenarios

    Concrete configurations and worlds on which the statements below are
    run. *)

Definition cfg_default : config := Config.load (fun _ => None).

Definition cfg_two : config :=
  Config.load (fun name =>
    if String.eqb name "TARGET_VAULT_ADDRS"
    then Some "https://vault-0:8200,https://vault-1:8200"
    else None).

Definition status (s : bool) (threshold progressed : Z) : SealStatus :=
  {| sealed := JBool s; t := JNum threshold; progress := JNum progressed |}.

Definition five_keys : KvBody :=
  {| data := Some (Some [("key1", "k1"); ("key2", "k2"); ("key3", "k3");
                         ("key4", "k4"); ("key5", "k5")]) |}.

Definition two_keys : KvBody :=
  {| data := Some (Some [("key1", "k1"); ("key2", "k2")]) |}.

Definition no_keys : KvBody := {| data := Some (Some []) |}.

(** A primary that logs the caller in and serves [body]. *)
Definition primary_serving (body : KvBody) (probe : completion SealStatus)
           (unseal : list string -> string -> completion SealStatus) : World := {|
  read_file := fun _ => Normal "jwt";
  post_login := fun _ _ _ => Normal {| auth := Some (Some "s.token") |};
  get_keys := fun _ _ _ => Normal body;
  get_status := fun _ => probe;
  put_unseal := fun _ => unseal
|}.

(** Sealed with threshold 3; the third key unseals. *)
Definition w_third_unseals : World :=
  primary_serving five_keys (Normal (status true 3 0))
    (fun sent _ =>
       Normal (status (Nat.ltb (List.length sent) 2) 3
                      (Z.of_nat (List.length sent) + 1))).

(** Sealed, reporting [t: 0]; every key leaves it sealed. *)
Definition w_zero_threshold : World :=
  primary_serving five_keys (Normal (status true 0 0))
    (fun _ _ => Normal (status true 0 0)).

(** Sealed with threshold 3; the store holds two keys only. *)
Definition w_two_keys : World :=
  primary_serving two_keys (Normal (status true 3 0))
    (fun sent _ => Normal (status true 3 (Z.of_nat (List.length sent) + 1))).

(** Sealed; the key path is empty. *)
Definition w_empty_path : World :=
  primary_serving no_keys (Normal (status true 3 0))
    (fun _ _ => Normal (status false 3 0)).

(** Not sealed. *)
Definition w_unsealed : World :=
  primary_serving five_keys (Normal (status false 3 0))
    (fun _ _ => Normal (status false 3 0)).

(** Sealed; the primary turns the login down. *)
Definition w_login_denied : World := {|
  read_file := fun _ => Normal "jwt";
  post_login := fun _ _ _ =>
    Throw {| response := Some (403, "permission denied");
             message := "Request failed with status code 403" |};
  get_keys := fun _ _ _ => Normal five_keys;
  get_status := fun _ => Normal (status true 3 0);
  put_unseal := fun _ _ _ => Normal (status false 3 0)
|}.

(** The target does not answer the probe. *)
Definition w_unreachable : World :=
  primary_serving five_keys
    (Throw {| response := None; message := "connect ECONNREFUSED" |})
    (fun _ _ => Normal (status false 3 0)).

(** A sweep over two targets: the first is unreachable, the second is
    sealed and unseals at its third key. *)
Definition worlds_first_down (i : nat) : World :=
  match i with
  | O => w_unreachable
  | _ => w_third_unseals
  end.

(** ** Further observations *)

(** The unseal requests of a trace: endpoint and key, oldest first. *)
Fixpoint unseal_requests (tr : list event) : list (string * string) :=
  match tr with
  | [] => []
  | api_put url key :: tr' => (url, key) :: unseal_requests tr'
  | _ :: tr' => unseal_requests tr'
  end.

(** The addresses a trace probed for their seal status. *)
Fixpoint probes (tr : list event) : list string :=
  match tr with
  | [] => []
  | api_get url :: tr' => url :: probes tr'
  | _ :: tr' => probes tr'
  end.

(** Whether [c] occurs in [s]. *)
Fixpoint has_char (c : ascii) (s : string) : bool :=
  match s with
  | EmptyString => false
  | String d rest => Ascii.eqb d c || has_char c rest
  end.

(** The lines that close a run: "already unsealed" (121), "now
    UNSEALED" (112) and the two of the catch block (126, 128). *)
Definition closes_run (ev : event) : bool :=
  says_already_unsealed ev || says_now_unsealed ev || says_run_failed ev.

(** An environment in which the variables set to the empty string are
    unset. *)
Definition without_empty (env : environment) : environment :=
  fun name =>
    match env name with
    | Some s => if nonempty s then Some s else None
    | None => None
    end.

(** Sealed with threshold 3; the second unseal request fails. *)
Definition w_second_put_fails : World :=
  primary_serving five_keys (Normal (status true 3 0))
    (fun sent _ =>
       match sent with
       | [] => Normal (status true 3 1)
       | _ => Throw {| response := Some (500, "internal error");
                       message := "Request failed with status code 500" |}
       end).

(** Sealed, reporting the threshold [-5]. *)
Definition w_negative_threshold : World :=
  primary_serving five_keys (Normal (status true (-5) 0))
    (fun _ _ => Normal (status true (-5) 0)).

(** Sealed; the credential file cannot be read. *)
Definition w_no_credential : World := {|
  read_file := fun _ =>
    Throw {| response := None; message := "ENOENT: no such file or directory" |};
  post_login := fun _ _ _ => Normal {| auth := Some (Some "s.token") |};
  get_keys := fun _ _ _ => Normal five_keys;
  get_status := fun _ => Normal (status true 3 0);
  put_unseal := fun _ _ _ => Normal (status false 3 0)
|}.

(** Sealed; the login answers without a token. *)
Definition w_no_token : World := {|
  read_file := fun _ => Normal "jwt";
  post_login := fun _ _ _ => Normal {| auth := Some None |};
  get_keys := fun _ _ _ => Normal five_keys;
  get_status := fun _ => Normal (status true 3 0);
  put_unseal := fun _ _ _ => Normal (status false 3 0)
|}.

(** ** What the primary can hold under [data.data]

    The wire contract of the key read is an object of named key shares,
    [{<name>: <key>, ...}].  A key-value path can as well hold a plain
    text there (a version-1 secret with a field called [data]).
    [Object.values] walks the own enumerable properties of whatever it is
    given: those of a text are its characters, named by their index, and
    the empty text is falsy like a missing collection.  (Characters are
    bytes here, as they are for ASCII text.) *)
Inductive served : Type :=
| key_object (props : list (string * string))
| text (s : string).

Fixpoint text_properties (i : nat) (s : string) : list (string * string) :=
  match s with
  | EmptyString => []
  | String c rest =>
      (NilEmpty.string_of_uint (Nat.to_uint i), String c EmptyString)
      :: text_properties (S i) rest
  end.

Definition own_properties (v : served) : list (string * string) :=
  match v with
  | key_object props => props
  | text s => text_properties 0 s
  end.

(** Whether the value has the shape of the wire contract. *)
Definition is_key_object (v : served) : bool :=
  match v with
  | key_object _ => true
  | text _ => false
  end.

Definition kv_body (v : served) : KvBody :=
  {| data := Some (Some (own_properties v)) |}.

(** Sealed with threshold 3 and staying so; the key path holds the text
    "abc". *)
Definition w_text_collection : World :=
  primary_serving (kv_body (text "abc")) (Normal (status true 3 0))
    (fun sent _ => Normal (status true 3 (Z.of_nat (List.length sent) + 1))).

(** * Properties *)

Example split_two : split "," "a,b" = ["a"; "b"].
Proof. reflexivity. Qed.

Example split_edges : split "," ",a,,b," = [""; "a"; ""; "b"; ""].
Proof. reflexivity. Qed.

Example parse_edges : parseTargetVaultAddrs (Some ",a,,b,") = ["a"; "b"].
Proof. reflexivity. Qed.

Example slice0_negative : slice0 ["k1"; "k2"; "k3"] (-1) = ["k1"; "k2"].
Proof. reflexivity. Qed.

(** ** Traces *)

Lemma submissions_app (tr1 tr2 : list event) :
  submissions (tr1 ++ tr2)%list = (submissions tr1 ++ submissions tr2)%list.
Proof.
  induction tr1 as [|ev tr1 IH]; [reflexivity|].
  destruct ev; cbn; rewrite IH; reflexivity.
Qed.

(** Cases on whatever the goal still branches on. *)
Ltac branch :=
  match goal with
  | |- context [match ?x with _ => _ end] =>
      lazymatch x with
      | context [match _ with _ => _ end] => fail
      | _ => destruct x eqn:?
      end
  end.

Ltac run := cbn; repeat (branch; cbn).

(** ** The Key Source Client *)

Section KeySource.

Variable cfg : config.
Variable w : World.

(** The Key Source Client submits nothing to a target and writes none of
    the lines of [checkAndUnseal]. *)
Lemma getUnsealKeys_quiet :
  let tr := trace (getUnsealKeys cfg w) in
  submissions tr = []
  /\ existsb says_already_unsealed tr = false
  /\ existsb says_now_unsealed tr = false
  /\ existsb says_run_failed tr = false
  /\ existsb is_probe tr = false.
Proof.
  unfold getUnsealKeys, getPrimaryVaultToken, try_catch, bind, await, emit,
    throw, ret, trace.
  run; repeat split; reflexivity.
Qed.

(** It reports its own failure, and only a failure. *)
Lemma getUnsealKeys_throws (e : jserror) :
  outcome (getUnsealKeys cfg w) = Throw e ->
  existsb says_fetch_failed (trace (getUnsealKeys cfg w)) = true
  /\ exists tr, trace (getUnsealKeys cfg w)
                = (tr ++ [console_error (fetch_error (message e))])%list.
Proof.
  unfold getUnsealKeys, getPrimaryVaultToken, try_catch, bind, await, emit,
    throw, ret, trace, outcome.
  run; intros H; inversion H; subst; (split; [reflexivity|]);
    match goal with
    | |- exists tr, ?l = _ => exists (removelast l); reflexivity
    end.
Qed.

Lemma getUnsealKeys_returns (ks : list string) :
  outcome (getUnsealKeys cfg w) = Normal ks ->
  existsb is_console_error (trace (getUnsealKeys cfg w)) = false.
Proof.
  unfold getUnsealKeys, getPrimaryVaultToken, try_catch, bind, await, emit,
    throw, ret, trace, outcome.
  run; intros H; inversion H; reflexivity.
Qed.

End KeySource.

(** ** One run of [checkAndUnseal] *)

Section Run.

Variable cfg : config.
Variable w : World.
Variable targetAddr : string.

Let status_url := targetAddr ++ "/v1/sys/seal-status".
Let unseal_url := targetAddr ++ "/v1/sys/unseal".

(** The paths through [checkAndUnseal]: the catch block ends every one
    of them normally. *)
Lemma checkAndUnseal_paths :
  checkAndUnseal cfg w targetAddr =
  let head := [console_log (checking targetAddr); api_get status_url] in
  match get_status w status_url with
  | Throw e => ((head ++ [reported targetAddr e])%list, Normal tt)
  | Normal statusRes =>
      if truthy (sealed statusRes) then
        let head := (head ++ [console_log (is_sealed targetAddr)])%list in
        match getUnsealKeys cfg w with
        | (fetch, Throw e) =>
            ((head ++ fetch ++ [reported targetAddr e])%list, Normal tt)
        | (fetch, Normal unsealKeys) =>
            match submit w targetAddr [] (keysToUse unsealKeys statusRes) with
            | (loop, Throw e) =>
                ((head ++ fetch ++ loop ++ [reported targetAddr e])%list,
                 Normal tt)
            | (loop, Normal _) => ((head ++ fetch ++ loop)%list, Normal tt)
            end
        end
      else
        ((head ++ [console_log (already_unsealed targetAddr)])%list, Normal tt)
  end.
Proof.
  unfold checkAndUnseal, try_catch, bind, await, emit, reported, status_url.
  cbn.
  destruct (get_status w _) as [statusRes|e]; cbn.
  - destruct (truthy (sealed statusRes)); cbn; [|reflexivity].
    destruct (getUnsealKeys cfg w) as [fetch [unsealKeys|e]]; cbn.
    + destruct (submit w targetAddr [] _) as [loop [[]|e]]; cbn.
      * reflexivity.
      * destruct (response e) as [[status body]|]; cbn;
          rewrite <- app_assoc; reflexivity.
    + destruct (response e) as [[status body]|]; cbn; reflexivity.
  - destruct (response e) as [[status body]|]; cbn; reflexivity.
Qed.

(** The loop sends the keys [loop_keys] computes. *)
Lemma submit_submissions (keys sent : list string) :
  submissions (trace (submit w targetAddr sent keys))
  = loop_keys w unseal_url sent keys.
Proof.
  revert sent.
  induction keys as [|key rest IH]; intros sent; [reflexivity|].
  cbn [submit loop_keys].
  unfold bind, await, emit, trace, unseal_url in *. cbn.
  destruct (put_unseal w _ sent key) as [unsealRes|e]; cbn; [|reflexivity].
  destruct (truthy (sealed unsealRes)); cbn; [|reflexivity].
  specialize (IH (sent ++ [key])%list).
  destruct (submit w targetAddr (sent ++ [key]) rest) as [tr r].
  cbn in *. rewrite IH. reflexivity.
Qed.

(** The loop writes no line of another outcome than its own. *)
Lemma submit_lines (keys sent : list string) :
  let tr := trace (submit w targetAddr sent keys) in
  existsb says_already_unsealed tr = false
  /\ existsb says_run_failed tr = false
  /\ existsb says_fetch_failed tr = false
  /\ existsb is_console_error tr = false
  /\ key_source_calls tr = [].
Proof.
  revert sent.
  induction keys as [|key rest IH]; intros sent; [repeat split|].
  cbn [submit].
  unfold bind, await, emit, trace in *. cbn.
  destruct (put_unseal w _ sent key) as [unsealRes|e]; cbn;
    [|repeat split].
  destruct (truthy (sealed unsealRes)); cbn; [|repeat split].
  specialize (IH (sent ++ [key])%list).
  destruct (submit w targetAddr (sent ++ [key]) rest) as [tr r].
  exact IH.
Qed.

End Run.

(** ** The submission loop as a function of the answers *)

Section Loop.

Variable w : World.
Variable url : string.

Lemma loop_keys_prefix (keys sent : list string) :
  exists n, loop_keys w url sent keys = firstn n keys.
Proof.
  revert sent.
  induction keys as [|key rest IH]; intros sent.
  - exists 0%nat. reflexivity.
  - cbn [loop_keys].
    destruct (put_unseal w url sent key) as [unsealRes|e];
      [destruct (truthy (sealed unsealRes))|].
    + destruct (IH (sent ++ [key])%list) as [n Hn].
      exists (S n). cbn. rewrite Hn. reflexivity.
    + exists 1%nat. reflexivity.
    + exists 1%nat. reflexivity.
Qed.

(** Nothing is sent after an answer that reports the target unsealed. *)
Lemma loop_keys_stops (keys sent pre : list string) (k : string)
      (post : list string) (r : SealStatus) :
  loop_keys w url sent keys = (pre ++ k :: post)%list ->
  put_unseal w url (sent ++ pre)%list k = Normal r ->
  truthy (sealed r) = false ->
  post = [].
Proof.
  revert sent pre.
  induction keys as [|key rest IH]; intros sent pre Hloop Hput Hr.
  - destruct pre; discriminate Hloop.
  - cbn [loop_keys] in Hloop.
    destruct pre as [|p pre]; cbn in Hloop; inversion Hloop; subst.
    + rewrite app_nil_r in Hput. rewrite Hput, Hr. reflexivity.
    + destruct (put_unseal w url sent p) as [unsealRes|e];
        [destruct (truthy (sealed unsealRes))|].
      * apply (IH (sent ++ [p])%list pre); [assumption| |assumption].
        rewrite <- app_assoc. exact Hput.
      * destruct pre; discriminate.
      * destruct pre; discriminate.
Qed.

(** The loop stops short of its keys only on the answer to the key it
    sent last: an error, or a status that is no longer sealed. *)
Lemma loop_keys_short (keys sent : list string) :
  loop_keys w url sent keys <> keys ->
  exists pre k,
    loop_keys w url sent keys = (pre ++ [k])%list
    /\ forall r, put_unseal w url (sent ++ pre)%list k = Normal r ->
                 truthy (sealed r) = false.
Proof.
  revert sent.
  induction keys as [|key rest IH]; intros sent Hne.
  - contradiction Hne. reflexivity.
  - cbn [loop_keys] in *.
    destruct (put_unseal w url sent key) as [unsealRes|e] eqn:Hput;
      [destruct (truthy (sealed unsealRes)) eqn:Hsealed|].
    + destruct (IH (sent ++ [key])%list) as (pre & k & Hloop & Hlast).
      { intros Heq. apply Hne. rewrite Heq. reflexivity. }
      exists (key :: pre), k. split.
      * cbn. rewrite Hloop. reflexivity.
      * intros r Hr. apply Hlast. rewrite <- app_assoc. exact Hr.
    + exists [], key. split; [reflexivity|].
      intros r Hr. rewrite app_nil_r in Hr. rewrite Hput in Hr.
      inversion Hr; subst. exact Hsealed.
    + exists [], key. split; [reflexivity|].
      intros r Hr. rewrite app_nil_r in Hr. rewrite Hput in Hr.
      discriminate Hr.
Qed.

(** While every answer reports the target sealed, every key is sent. *)
Lemma loop_keys_all (keys sent : list string) :
  (forall pre k post, keys = (pre ++ k :: post)%list ->
     exists r, put_unseal w url (sent ++ pre)%list k = Normal r
               /\ truthy (sealed r) = true) ->
  loop_keys w url sent keys = keys.
Proof.
  revert sent.
  induction keys as [|key rest IH]; intros sent Hall; [reflexivity|].
  cbn [loop_keys].
  destruct (Hall [] key rest eq_refl) as (r & Hput & Hr).
  rewrite app_nil_r in Hput. rewrite Hput, Hr.
  rewrite IH; [reflexivity|].
  intros pre k post Hkeys.
  destruct (Hall (key :: pre) k post) as (r' & Hput' & Hr').
  { rewrite Hkeys. reflexivity. }
  exists r'. split; [|exact Hr'].
  rewrite <- app_assoc. exact Hput'.
Qed.

End Loop.

(** ** The share bound of line 105 *)

Lemma slice0_firstn {A : Type} (arr : list A) (n : Z) :
  0 <= n ->
  slice0 arr n = firstn (Z.to_nat (Z.min n (Z.of_nat (List.length arr)))) arr.
Proof.
  intros Hn. unfold slice0.
  destruct (Z.ltb_spec n 0); [lia|reflexivity].
Qed.

Lemma firstn_min_length {A : Type} (arr : list A) (n : Z) :
  firstn (Z.to_nat (Z.min n (Z.of_nat (List.length arr)))) arr
  = firstn (Z.to_nat n) arr.
Proof.
  destruct (Z.le_ge_cases n (Z.of_nat (List.length arr))) as [H|H].
  - rewrite Z.min_l by exact H. reflexivity.
  - rewrite Z.min_r by exact H. rewrite Nat2Z.id.
    rewrite firstn_all. symmetry. apply firstn_all2. lia.
Qed.

Lemma keysToUse_falsy (unsealKeys : list string) (statusRes : SealStatus) :
  truthy (t statusRes) = false ->
  keysToUse unsealKeys statusRes = firstn 3 unsealKeys.
Proof.
  intros Hfalsy. unfold keysToUse, js_or. rewrite Hfalsy. cbn [ToIntegerOrInfinity].
  rewrite slice0_firstn by lia. rewrite firstn_min_length. reflexivity.
Qed.

Lemma keysToUse_threshold (unsealKeys : list string) (statusRes : SealStatus)
      (n : Z) :
  t statusRes = JNum n -> 1 <= n ->
  keysToUse unsealKeys statusRes
  = firstn (Z.to_nat (Z.min n (Z.of_nat (List.length unsealKeys)))) unsealKeys.
Proof.
  intros Ht Hn. unfold keysToUse, js_or. rewrite Ht. cbn.
  destruct (Z.eqb_spec n 0); [lia|]. cbn.
  apply slice0_firstn. lia.
Qed.

(** ** The claims on [checkAndUnseal] *)

Lemma getUnsealKeys_split (cfg : config) (w : World) :
  getUnsealKeys cfg w
  = (trace (getUnsealKeys cfg w), outcome (getUnsealKeys cfg w)).
Proof. destruct (getUnsealKeys cfg w); reflexivity. Qed.

Lemma submit_split (w : World) (targetAddr : string) (sent keys : list string) :
  submit w targetAddr sent keys
  = (trace (submit w targetAddr sent keys),
     outcome (submit w targetAddr sent keys)).
Proof. destruct (submit w targetAddr sent keys); reflexivity. Qed.

Lemma submissions_reported (targetAddr : string) (e : jserror) :
  submissions [reported targetAddr e] = [].
Proof. unfold reported. destruct (response e) as [[? ?]|]; reflexivity. Qed.

Lemma checkAndUnseal_submissions (cfg : config) (w : World)
      (targetAddr : string) (statusRes : SealStatus) (unsealKeys : list string) :
  get_status w (targetAddr ++ "/v1/sys/seal-status") = Normal statusRes ->
  truthy (sealed statusRes) = true ->
  outcome (getUnsealKeys cfg w) = Normal unsealKeys ->
  submissions (trace (checkAndUnseal cfg w targetAddr))
  = loop_keys w (targetAddr ++ "/v1/sys/unseal") []
              (keysToUse unsealKeys statusRes).
Proof.
  intros Hprobe Hsealed Hfetch.
  rewrite checkAndUnseal_paths. cbn zeta. rewrite Hprobe, Hsealed.
  rewrite getUnsealKeys_split, Hfetch.
  pose proof (getUnsealKeys_quiet cfg w) as (Hquiet & _).
  pose proof (submit_submissions w targetAddr (keysToUse unsealKeys statusRes) [])
    as Hloop.
  rewrite submit_split.
  destruct (outcome (submit w targetAddr [] (keysToUse unsealKeys statusRes)))
    as [[]|e]; unfold trace at 1; cbn [fst];
    rewrite !submissions_app, ?submissions_reported, Hquiet, Hloop;
    cbn; rewrite ?app_nil_r; reflexivity.
Qed.

Lemma reported_lines (targetAddr : string) (e : jserror) :
  says_already_unsealed (reported targetAddr e) = false
  /\ says_now_unsealed (reported targetAddr e) = false
  /\ says_run_failed (reported targetAddr e) = true
  /\ is_key_source_call (reported targetAddr e) = false.
Proof. unfold reported. destruct (response e) as [[? ?]|]; repeat split. Qed.

(** C1: a target whose probe reports [sealed] falsy is left alone: the
    run is the probe and the line "already unsealed", with no call of the
    Key Source Client (no credential read, no login, no key read) and no
    unseal submission. *)
Theorem unsealed_target_needs_no_keys
        (cfg : config) (w : World) (targetAddr : string) (statusRes : SealStatus) :
  get_status w (targetAddr ++ "/v1/sys/seal-status") = Normal statusRes ->
  truthy (sealed statusRes) = false ->
  let run := checkAndUnseal cfg w targetAddr in
  run = ([console_log (checking targetAddr);
          api_get (targetAddr ++ "/v1/sys/seal-status");
          console_log (already_unsealed targetAddr)], Normal tt)
  /\ key_source_calls (trace run) = []
  /\ submissions (trace run) = []
  /\ Outcome_of (trace run) = AlreadyUnsealed.
Proof.
  intros Hprobe Hsealed run. subst run.
  rewrite checkAndUnseal_paths. cbn zeta. rewrite Hprobe, Hsealed.
  repeat split.
Qed.

Lemma unsealed_target_needs_no_keys_witness :
  key_source_calls (trace (checkAndUnseal cfg_two w_unsealed "https://vault-0:8200")) = []
  /\ submissions (trace (checkAndUnseal cfg_two w_unsealed "https://vault-0:8200")) = []
  /\ Outcome_of (trace (checkAndUnseal cfg_two w_unsealed "https://vault-0:8200"))
     = AlreadyUnsealed.
Proof.
  exact (proj2 (unsealed_target_needs_no_keys cfg_two w_unsealed
                  "https://vault-0:8200" (status false 3 0) eq_refl eq_refl)).
Defined.

(** A failed login is a failed key fetch: [getUnsealKeys] rethrows what
    [getPrimaryVaultToken] threw. *)
Lemma login_failure_fails_fetch (cfg : config) (w : World) (e : jserror) :
  outcome (getPrimaryVaultToken cfg w) = Throw e ->
  outcome (getUnsealKeys cfg w) = Throw e.
Proof.
  unfold getUnsealKeys.
  destruct (getPrimaryVaultToken cfg w) as [tr [token|e']]; cbn;
    intros H; inversion H; subst.
  reflexivity.
Qed.

(** C3: when the key fetch of a sealed target fails (the login, the key
    read or the check of what was read), the run submits no key at all:
    after the fetch it only writes the error line of the catch block and
    ends normally, its outcome Failed for the key fetch. *)
Theorem failed_key_fetch_submits_nothing
        (cfg : config) (w : World) (targetAddr : string)
        (statusRes : SealStatus) (e : jserror) :
  get_status w (targetAddr ++ "/v1/sys/seal-status") = Normal statusRes ->
  truthy (sealed statusRes) = true ->
  outcome (getUnsealKeys cfg w) = Throw e ->
  let run := checkAndUnseal cfg w targetAddr in
  submissions (trace run) = []
  /\ trace run = ([console_log (checking targetAddr);
                   api_get (targetAddr ++ "/v1/sys/seal-status");
                   console_log (is_sealed targetAddr)]
                  ++ trace (getUnsealKeys cfg w)
                  ++ [reported targetAddr e])%list
  /\ outcome run = Normal tt
  /\ Outcome_of (trace run) = Failed key_fetch_error.
Proof.
  intros Hprobe Hsealed Hfetch run. subst run.
  rewrite checkAndUnseal_paths. cbn zeta. rewrite Hprobe, Hsealed.
  rewrite getUnsealKeys_split, Hfetch.
  pose proof (getUnsealKeys_quiet cfg w) as (Hsub & Halready & Hnow & Hrun & _).
  pose proof (getUnsealKeys_throws cfg w e Hfetch) as (Hsaid & _).
  pose proof (reported_lines targetAddr e) as (Ra & Rn & Rf & _).
  cbn [trace outcome fst snd].
  repeat split.
  - rewrite !submissions_app, Hsub, submissions_reported. reflexivity.
  - unfold Outcome_of.
    rewrite !existsb_app, Halready, Hnow, Hrun, Hsaid. cbn.
    rewrite Ra, Rn, Rf. reflexivity.
Qed.

Lemma failed_key_fetch_submits_nothing_witness :
  submissions (trace (checkAndUnseal cfg_two w_login_denied "https://vault-0:8200")) = []
  /\ outcome (checkAndUnseal cfg_two w_login_denied "https://vault-0:8200") = Normal tt
  /\ Outcome_of (trace (checkAndUnseal cfg_two w_login_denied "https://vault-0:8200"))
     = Failed key_fetch_error.
Proof.
  pose proof (failed_key_fetch_submits_nothing cfg_two w_login_denied
                "https://vault-0:8200" (status true 3 0)
                {| response := Some (403, "permission denied");
                   message := "Request failed with status code 403" |}
                eq_refl eq_refl eq_refl) as (Hsub & _ & Hend & Hout).
  exact (conj Hsub (conj Hend Hout)).
Defined.

(** ** The sweep *)

Lemma forEach_length {A B : Type} (f : nat -> A -> B) (arr : list A) (i : nat) :
  List.length (forEach f i arr) = List.length arr.
Proof.
  revert i. induction arr as [|x rest IH]; intros i; cbn; [|rewrite IH];
    reflexivity.
Qed.

Lemma forEach_nth_error {A B : Type} (f : nat -> A -> B) (arr : list A)
      (i n : nat) :
  nth_error (forEach f i arr) n = option_map (f (i + n)%nat) (nth_error arr n).
Proof.
  revert i n. induction arr as [|x rest IH]; intros i n.
  - destruct n; reflexivity.
  - destruct n as [|n]; cbn.
    + rewrite Nat.add_0_r. reflexivity.
    + rewrite IH. rewrite Nat.add_succ_r. reflexivity.
Qed.

Lemma forEach_Forall {A B : Type} (P : B -> Prop) (f : nat -> A -> B)
      (arr : list A) (i : nat) :
  (forall j x, P (f j x)) -> Forall P (forEach f i arr).
Proof.
  intros Hf. revert i.
  induction arr as [|x rest IH]; intros i; cbn; constructor; auto.
Qed.

(** Every run ends normally, whatever it was answered. *)
Lemma checkAndUnseal_never_throws (cfg : config) (w : World) (targetAddr : string) :
  outcome (checkAndUnseal cfg w targetAddr) = Normal tt.
Proof.
  rewrite checkAndUnseal_paths. cbn zeta.
  destruct (get_status w _) as [statusRes|e]; [|reflexivity].
  destruct (truthy (sealed statusRes)); [|reflexivity].
  destruct (getUnsealKeys cfg w) as [fetch [unsealKeys|e]]; [|reflexivity].
  destruct (submit w targetAddr [] _) as [loop [[]|e]]; reflexivity.
Qed.

(** Every run starts with the probe of its own target. *)
Lemma checkAndUnseal_probes (cfg : config) (w : World) (targetAddr : string) :
  exists rest,
    trace (checkAndUnseal cfg w targetAddr)
    = console_log (checking targetAddr)
      :: api_get (targetAddr ++ "/v1/sys/seal-status") :: rest.
Proof.
  rewrite checkAndUnseal_paths. cbn zeta.
  destruct (get_status w _) as [statusRes|e]; [|eexists; reflexivity].
  destruct (truthy (sealed statusRes)); [|eexists; reflexivity].
  destruct (getUnsealKeys cfg w) as [fetch [unsealKeys|e]];
    [|eexists; reflexivity].
  destruct (submit w targetAddr [] _) as [loop [[]|e]]; eexists; reflexivity.
Qed.

(** The sweep starts the run of every configured target. *)
Lemma pollVaultNodes_runs (cfg : config) (worlds : nat -> World) (i : nat) :
  nth_error (sweep_runs (pollVaultNodes cfg worlds)) i
  = option_map (checkAndUnseal cfg (worlds i)) (nth_error (targetVaultAddrs cfg) i).
Proof.
  unfold pollVaultNodes.
  destruct (targetVaultAddrs cfg) as [|addr rest] eqn:Htargets.
  - cbn. destruct i; reflexivity.
  - cbn [List.length Nat.eqb sweep_runs]. apply forEach_nth_error.
Qed.

Lemma pollVaultNodes_all_normal (cfg : config) (worlds : nat -> World) :
  Forall (fun run => outcome run = Normal tt)
         (sweep_runs (pollVaultNodes cfg worlds)).
Proof.
  unfold pollVaultNodes.
  destruct (List.length (targetVaultAddrs cfg) =? 0)%nat; cbn.
  - constructor.
  - apply forEach_Forall. intros j addr. apply checkAndUnseal_never_throws.
Qed.

(** Every cycle starts the run of every configured target afresh, from
    the probe, whatever the cycles before it came to. *)
Lemma cycles_reconcile_again (cfg : config) (worlds : nat -> nat -> World)
      (ticks c i : nat) (targetAddr : string) :
  (c <= ticks)%nat ->
  nth_error (targetVaultAddrs cfg) i = Some targetAddr ->
  exists sweep,
    nth_error (cycles cfg worlds ticks) c = Some sweep
    /\ nth_error (sweep_runs sweep) i
       = Some (checkAndUnseal cfg (worlds c i) targetAddr).
Proof.
  intros Hc Htarget.
  exists (pollVaultNodes cfg (worlds c)). split.
  - unfold cycles.
    rewrite (nth_error_map (fun c => pollVaultNodes cfg (worlds c))).
    rewrite nth_error_seq.
    destruct (Nat.ltb_spec c (S ticks)) as [_|Hge]; [reflexivity|lia].
  - rewrite pollVaultNodes_runs, Htarget. reflexivity.
Qed.

(** C4: whatever the targets answer, the sweep starts one run per
    configured target, in the order of the list; each run begins with the
    probe of its own target and ends normally, its errors caught inside
    it.  So no failure of one run keeps another from being started, and
    no error leaves the sweep. *)
Theorem sweep_contains_failures (cfg : config) (worlds : nat -> World) :
  let runs := sweep_runs (pollVaultNodes cfg worlds) in
  List.length runs = List.length (targetVaultAddrs cfg)
  /\ (forall i targetAddr,
        nth_error (targetVaultAddrs cfg) i = Some targetAddr ->
        nth_error runs i = Some (checkAndUnseal cfg (worlds i) targetAddr)
        /\ exists rest,
             trace (checkAndUnseal cfg (worlds i) targetAddr)
             = console_log (checking targetAddr)
               :: api_get (targetAddr ++ "/v1/sys/seal-status") :: rest)
  /\ Forall (fun run => outcome run = Normal tt) runs.
Proof.
  cbn zeta. split; [|split].
  - unfold pollVaultNodes.
    destruct (targetVaultAddrs cfg) as [|addr rest]; [reflexivity|].
    cbn [List.length Nat.eqb sweep_runs]. rewrite forEach_length. reflexivity.
  - intros i targetAddr Htarget. split.
    + rewrite pollVaultNodes_runs, Htarget. reflexivity.
    + apply checkAndUnseal_probes.
  - apply pollVaultNodes_all_normal.
Qed.

(** The sweep of [cfg_two] with the first target down: the second run is
    started all the same and unseals its target. *)
Example sweep_first_down :
  map (fun run => Outcome_of (trace run))
      (sweep_runs (pollVaultNodes cfg_two worlds_first_down))
  = [Failed unreachable; Unsealed].
Proof. reflexivity. Qed.

(** C8: with no target configured the sweep writes its opening line and
    the warning and starts no run: nothing is probed, no key is fetched,
    nothing is submitted. *)
Theorem empty_target_list_only_warns (cfg : config) (worlds : nat -> World) :
  targetVaultAddrs cfg = [] ->
  pollVaultNodes cfg worlds
  = {| sweep_console := [console_log cycle_start; console_warn no_targets];
       sweep_runs := [] |}.
Proof.
  intros Hnone. unfold pollVaultNodes. rewrite Hnone. reflexivity.
Qed.

Lemma empty_target_list_only_warns_witness :
  pollVaultNodes cfg_default worlds_first_down
  = {| sweep_console := [console_log cycle_start; console_warn no_targets];
       sweep_runs := [] |}.
Proof.
  exact (empty_target_list_only_warns cfg_default worlds_first_down eq_refl).
Defined.

(** C5: when the probe of a target fails, its run is the probe and the
    error line of the catch block: the Key Source Client is not called,
    nothing is submitted, the outcome is Failed for the target, and the
    run ends normally, so that the sweep it belongs to has started, and
    still holds, the run of every configured target. *)
Theorem failed_probe_stays_local
        (cfg : config) (worlds : nat -> World) (i : nat) (targetAddr : string)
        (e : jserror) :
  nth_error (targetVaultAddrs cfg) i = Some targetAddr ->
  get_status (worlds i) (targetAddr ++ "/v1/sys/seal-status") = Throw e ->
  let run := checkAndUnseal cfg (worlds i) targetAddr in
  run = ([console_log (checking targetAddr);
          api_get (targetAddr ++ "/v1/sys/seal-status");
          reported targetAddr e], Normal tt)
  /\ key_source_calls (trace run) = []
  /\ submissions (trace run) = []
  /\ Outcome_of (trace run) = Failed unreachable
  /\ forall j other,
       nth_error (targetVaultAddrs cfg) j = Some other ->
       nth_error (sweep_runs (pollVaultNodes cfg worlds)) j
       = Some (checkAndUnseal cfg (worlds j) other).
Proof.
  intros Htarget Hprobe run. subst run.
  rewrite checkAndUnseal_paths. cbn zeta. rewrite Hprobe.
  pose proof (reported_lines targetAddr e) as (Ra & Rn & Rf & Rk).
  repeat split.
  - cbn. unfold key_source_calls. cbn. rewrite Rk. reflexivity.
  - cbn. apply submissions_reported.
  - unfold Outcome_of. cbn. rewrite Ra, Rn, Rf. cbn.
    unfold reported. destruct (response e) as [[? ?]|]; reflexivity.
  - intros j other Hother. rewrite pollVaultNodes_runs, Hother. reflexivity.
Qed.

Lemma failed_probe_stays_local_witness :
  key_source_calls (trace (checkAndUnseal cfg_two w_unreachable "https://vault-0:8200")) = []
  /\ Outcome_of (trace (checkAndUnseal cfg_two w_unreachable "https://vault-0:8200"))
     = Failed unreachable
  /\ nth_error (sweep_runs (pollVaultNodes cfg_two worlds_first_down)) 1
     = Some (checkAndUnseal cfg_two w_third_unseals "https://vault-1:8200").
Proof.
  pose proof (failed_probe_stays_local cfg_two worlds_first_down 0
                "https://vault-0:8200"
                {| response := None; message := "connect ECONNREFUSED" |}
                eq_refl eq_refl) as (_ & Hcalls & _ & Hout & Hothers).
  exact (conj Hcalls (conj Hout (Hothers 1%nat "https://vault-1:8200" eq_refl))).
Defined.

(** While every answer reports the target sealed the loop runs to its
    end and writes neither "now unsealed" nor an error. *)
Lemma submit_exhausts (w : World) (targetAddr : string) (keys sent : list string) :
  (forall pre k post, keys = (pre ++ k :: post)%list ->
     exists r, put_unseal w (targetAddr ++ "/v1/sys/unseal") (sent ++ pre)%list k
               = Normal r
               /\ truthy (sealed r) = true) ->
  outcome (submit w targetAddr sent keys) = Normal tt
  /\ existsb says_now_unsealed (trace (submit w targetAddr sent keys)) = false.
Proof.
  revert sent.
  induction keys as [|key rest IH]; intros sent Hall; [split; reflexivity|].
  cbn [submit].
  destruct (Hall [] key rest eq_refl) as (r & Hput & Hr).
  rewrite app_nil_r in Hput.
  unfold bind, await, emit, trace, outcome in *. cbn.
  rewrite Hput. cbn. rewrite Hr. cbn.
  destruct (IH (sent ++ [key])%list) as (Hend & Hquiet).
  { intros pre k post Hkeys.
    destruct (Hall (key :: pre) k post) as (r' & Hput' & Hr').
    - rewrite Hkeys. reflexivity.
    - exists r'. split; [|exact Hr']. rewrite <- app_assoc. exact Hput'. }
  destruct (submit w targetAddr (sent ++ [key]) rest) as [tr c].
  cbn in *. split; assumption.
Qed.

(** C6: when every share selected for a sealed target is answered with a
    status that is still sealed, the run submits all of them and ends
    normally: no error is thrown out of it, none is written, and its
    outcome is PartiallySubmitted.  Nothing is kept of the run: every
    cycle of the timer starts the run of the target again from the
    probe. *)
Theorem exhausted_keys_end_quietly
        (cfg : config) (w : World) (targetAddr : string)
        (statusRes : SealStatus) (unsealKeys : list string) :
  get_status w (targetAddr ++ "/v1/sys/seal-status") = Normal statusRes ->
  truthy (sealed statusRes) = true ->
  outcome (getUnsealKeys cfg w) = Normal unsealKeys ->
  (forall pre k post,
     keysToUse unsealKeys statusRes = (pre ++ k :: post)%list ->
     exists r, put_unseal w (targetAddr ++ "/v1/sys/unseal") pre k = Normal r
               /\ truthy (sealed r) = true) ->
  let run := checkAndUnseal cfg w targetAddr in
  submissions (trace run) = keysToUse unsealKeys statusRes
  /\ outcome run = Normal tt
  /\ existsb is_console_error (trace run) = false
  /\ Outcome_of (trace run) = PartiallySubmitted
  /\ forall worlds ticks c i,
       (c <= ticks)%nat ->
       nth_error (targetVaultAddrs cfg) i = Some targetAddr ->
       exists sweep,
         nth_error (cycles cfg worlds ticks) c = Some sweep
         /\ nth_error (sweep_runs sweep) i
            = Some (checkAndUnseal cfg (worlds c i) targetAddr).
Proof.
  intros Hprobe Hsealed Hfetch Hall run. subst run.
  split.
  { rewrite (checkAndUnseal_submissions cfg w targetAddr statusRes unsealKeys)
      by assumption.
    apply loop_keys_all. exact Hall. }
  split; [apply checkAndUnseal_never_throws|].
  rewrite checkAndUnseal_paths. cbn zeta. rewrite Hprobe, Hsealed.
  rewrite getUnsealKeys_split, Hfetch.
  pose proof (getUnsealKeys_quiet cfg w) as (_ & Halready & Hnow & Hrun & _).
  pose proof (getUnsealKeys_returns cfg w unsealKeys Hfetch) as Hclean.
  pose proof (submit_lines w targetAddr (keysToUse unsealKeys statusRes) [])
    as (La & Lf & _ & Le & _).
  destruct (submit_exhausts w targetAddr (keysToUse unsealKeys statusRes) [] Hall)
    as (Hend & Lnow).
  rewrite submit_split, Hend. unfold trace in *. cbn [fst].
  split; [|split].
  - rewrite !existsb_app, Hclean, Le. reflexivity.
  - unfold Outcome_of.
    rewrite !existsb_app, Halready, Hnow, Hrun, La, Lf, Lnow. reflexivity.
  - intros worlds ticks c i. apply cycles_reconcile_again.
Qed.

Lemma exhausted_keys_end_quietly_witness :
  submissions (trace (checkAndUnseal cfg_two w_two_keys "https://vault-0:8200"))
  = ["k1"; "k2"]
  /\ outcome (checkAndUnseal cfg_two w_two_keys "https://vault-0:8200") = Normal tt
  /\ Outcome_of (trace (checkAndUnseal cfg_two w_two_keys "https://vault-0:8200"))
     = PartiallySubmitted.
Proof.
  assert (Hall : forall pre k post,
             keysToUse ["k1"; "k2"] (status true 3 0) = (pre ++ k :: post)%list ->
             exists r, put_unseal w_two_keys ("https://vault-0:8200" ++ "/v1/sys/unseal")
                                  pre k = Normal r
                       /\ truthy (sealed r) = true).
  { intros pre k post _. eexists. split; reflexivity. }
  pose proof (exhausted_keys_end_quietly cfg_two w_two_keys
                "https://vault-0:8200" (status true 3 0) ["k1"; "k2"]
                eq_refl eq_refl eq_refl Hall) as (Hsub & Hend & _ & Hout & _).
  exact (conj Hsub (conj Hend Hout)).
Defined.

(** ** The share bound and the order of submission *)

(** C2, as first stated, fails on a probe that reports [t: 0]: the bound
    is then 3, not 0.  The sealed target of [w_zero_threshold] reports
    [t: 0], the key source returns k1..k5, and the run submits k1, k2 and
    k3, which is no prefix of the first min(0, 5) = 0 keys. *)
Lemma zero_threshold_submits_three :
  get_status w_zero_threshold ("https://vault-0:8200" ++ "/v1/sys/seal-status")
  = Normal (status true 0 0)
  /\ truthy (sealed (status true 0 0)) = true
  /\ t (status true 0 0) = JNum 0
  /\ outcome (getUnsealKeys cfg_two w_zero_threshold)
     = Normal ["k1"; "k2"; "k3"; "k4"; "k5"]
  /\ submissions (trace (checkAndUnseal cfg_two w_zero_threshold "https://vault-0:8200"))
     = ["k1"; "k2"; "k3"]
  /\ ~ exists n,
         submissions (trace (checkAndUnseal cfg_two w_zero_threshold
                                            "https://vault-0:8200"))
         = firstn n
             (firstn (Z.to_nat (Z.min 0 (Z.of_nat
                        (List.length ["k1"; "k2"; "k3"; "k4"; "k5"]))))
                     ["k1"; "k2"; "k3"; "k4"; "k5"]).
Proof.
  repeat split.
  intros [n Hn]. cbn in Hn. rewrite firstn_nil in Hn. discriminate Hn.
Qed.

(** C2, amended: for a sealed target whose probe reports a threshold
    [T >= 0] and a fetched key sequence [ks], let the bound be [T], or 3
    when [T] is 0.  The keys the run submits are a prefix of the first
    min(bound, |ks|) keys of [ks], in the order of [ks], nothing added,
    dropped or moved; no key is submitted after an answer that reports
    the target unsealed; and the run stops short of the selected keys
    only on the answer to the key it sent last (an error, or a status no
    longer sealed). *)
Theorem submissions_follow_key_order
        (cfg : config) (w : World) (targetAddr : string)
        (statusRes : SealStatus) (T : Z) (ks : list string) :
  get_status w (targetAddr ++ "/v1/sys/seal-status") = Normal statusRes ->
  truthy (sealed statusRes) = true ->
  t statusRes = JNum T ->
  0 <= T ->
  outcome (getUnsealKeys cfg w) = Normal ks ->
  let bound := if T =? 0 then 3 else T in
  let selected := firstn (Z.to_nat (Z.min bound (Z.of_nat (List.length ks)))) ks in
  let sent := submissions (trace (checkAndUnseal cfg w targetAddr)) in
  (exists n, sent = firstn n selected)
  /\ (forall pre k post r,
        sent = (pre ++ k :: post)%list ->
        put_unseal w (targetAddr ++ "/v1/sys/unseal") pre k = Normal r ->
        truthy (sealed r) = false ->
        post = [])
  /\ (sent <> selected ->
      exists pre k,
        sent = (pre ++ [k])%list
        /\ forall r,
             put_unseal w (targetAddr ++ "/v1/sys/unseal") pre k = Normal r ->
             truthy (sealed r) = false).
Proof.
  intros Hprobe Hsealed Ht HT Hfetch bound selected sent.
  assert (Hselected : keysToUse ks statusRes = selected).
  { subst selected bound. destruct (Z.eqb_spec T 0) as [Hzero|Hpos].
    - rewrite keysToUse_falsy.
      + symmetry. apply firstn_min_length.
      + rewrite Ht, Hzero. reflexivity.
    - apply keysToUse_threshold; [exact Ht|lia]. }
  assert (Hsent : sent = loop_keys w (targetAddr ++ "/v1/sys/unseal") [] selected).
  { subst sent. rewrite <- Hselected.
    apply checkAndUnseal_submissions; assumption. }
  rewrite Hsent. repeat split.
  - apply loop_keys_prefix.
  - intros pre k post r Hsplit Hput Hr.
    exact (loop_keys_stops w _ selected [] pre k post r Hsplit Hput Hr).
  - intros Hshort.
    destruct (loop_keys_short w _ selected [] Hshort) as (pre & k & Hloop & Hlast).
    exists pre, k. split; assumption.
Qed.

Lemma submissions_follow_key_order_witness :
  (exists n,
     submissions (trace (checkAndUnseal cfg_two w_third_unseals "https://vault-0:8200"))
     = firstn n ["k1"; "k2"; "k3"])
  /\ submissions (trace (checkAndUnseal cfg_two w_third_unseals "https://vault-0:8200"))
     = ["k1"; "k2"; "k3"].
Proof.
  split; [|reflexivity].
  assert (Hthree : 0 <= 3) by lia.
  exact (proj1 (submissions_follow_key_order cfg_two w_third_unseals
                  "https://vault-0:8200" (status true 3 0) 3
                  ["k1"; "k2"; "k3"; "k4"; "k5"]
                  eq_refl eq_refl eq_refl Hthree eq_refl)).
Defined.

(** The scenario of the specification: threshold 3, five keys, the third
    one unseals; k4 and k5 stay unused. *)
Example third_key_unseals :
  submissions (trace (checkAndUnseal cfg_two w_third_unseals "https://vault-0:8200"))
  = ["k1"; "k2"; "k3"]
  /\ Outcome_of (trace (checkAndUnseal cfg_two w_third_unseals "https://vault-0:8200"))
     = Unsealed.
Proof. split; reflexivity. Qed.

Lemma checkAndUnseal_status (cfg : config) (w : World) (targetAddr : string)
      (statusRes other : SealStatus) :
  get_status w (targetAddr ++ "/v1/sys/seal-status") = Normal statusRes ->
  sealed other = sealed statusRes ->
  (forall ks, keysToUse ks other = keysToUse ks statusRes) ->
  checkAndUnseal cfg (with_status w (Normal other)) targetAddr
  = checkAndUnseal cfg w targetAddr.
Proof.
  intros Hprobe Hsealed Hkeys.
  rewrite !checkAndUnseal_paths. cbn zeta. rewrite Hprobe.
  cbn [with_status get_status]. rewrite Hsealed.
  destruct (truthy (sealed statusRes)); [|reflexivity].
  change (getUnsealKeys cfg (with_status w (Normal other)))
    with (getUnsealKeys cfg w).
  destruct (getUnsealKeys cfg w) as [fetch [unsealKeys|e]]; [|reflexivity].
  rewrite Hkeys.
  change (submit (with_status w (Normal other)))
    with (submit w).
  reflexivity.
Qed.

(** C9: a probe whose [t] is falsy (0, [false], [null] or absent) selects
    the first 3 fetched keys, and the whole run is the one the same
    world gives when the probe leaves [t] out: a sealed run submits from
    the first 3 fetched keys and from no other, at most 3 of them, and
    all of the first 3 while the answers report the target sealed.  The
    bound is the probed [t] only for a [t] that is a number other than
    0: a run whose probe reports a positive [t] submits from the first
    [t] fetched keys. *)
Theorem falsy_threshold_is_default
        (cfg : config) (w : World) (targetAddr : string) (statusRes : SealStatus) :
  get_status w (targetAddr ++ "/v1/sys/seal-status") = Normal statusRes ->
  truthy (t statusRes) = false ->
  (forall ks, keysToUse ks statusRes = firstn 3 ks)
  /\ (forall ks, keysToUse ks statusRes = keysToUse ks (omit_t statusRes))
  /\ checkAndUnseal cfg w targetAddr
     = checkAndUnseal cfg (with_status w (Normal (omit_t statusRes))) targetAddr
  /\ (forall ks other n,
        t other = JNum n -> 0 < n ->
        keysToUse ks other = firstn (Z.to_nat n) ks)
  /\ (forall ks,
        truthy (sealed statusRes) = true ->
        outcome (getUnsealKeys cfg w) = Normal ks ->
        let sent := submissions (trace (checkAndUnseal cfg w targetAddr)) in
        sent = loop_keys w (targetAddr ++ "/v1/sys/unseal") [] (firstn 3 ks)
        /\ (exists m, sent = firstn m (firstn 3 ks))
        /\ (List.length sent <= 3)%nat
        /\ ((forall pre k post,
               firstn 3 ks = (pre ++ k :: post)%list ->
               exists r,
                 put_unseal w (targetAddr ++ "/v1/sys/unseal") pre k = Normal r
                 /\ truthy (sealed r) = true) ->
            sent = firstn 3 ks))
  /\ (forall w' addr other n ks,
        get_status w' (addr ++ "/v1/sys/seal-status") = Normal other ->
        truthy (sealed other) = true ->
        t other = JNum n -> 0 < n ->
        outcome (getUnsealKeys cfg w') = Normal ks ->
        submissions (trace (checkAndUnseal cfg w' addr))
        = loop_keys w' (addr ++ "/v1/sys/unseal") [] (firstn (Z.to_nat n) ks)).
Proof.
  intros Hprobe Hfalsy.
  assert (Homit : forall ks, keysToUse ks (omit_t statusRes) = keysToUse ks statusRes).
  { intros ks. rewrite (keysToUse_falsy ks statusRes Hfalsy).
    apply keysToUse_falsy. reflexivity. }
  assert (Hpositive : forall ks other n,
             t other = JNum n -> 0 < n ->
             keysToUse ks other = firstn (Z.to_nat n) ks).
  { intros ks other n Hn Hpos.
    rewrite (keysToUse_threshold ks other n Hn) by lia.
    apply firstn_min_length. }
  split; [|split; [|split; [|split; [|split]]]].
  - intros ks. apply keysToUse_falsy. exact Hfalsy.
  - intros ks. symmetry. apply Homit.
  - symmetry. apply (checkAndUnseal_status cfg w targetAddr statusRes);
      [exact Hprobe|reflexivity|exact Homit].
  - exact Hpositive.
  - intros ks Hsealed Hfetch sent.
    assert (Hsent : sent = loop_keys w (targetAddr ++ "/v1/sys/unseal") []
                                     (firstn 3 ks)).
    { subst sent.
      rewrite (checkAndUnseal_submissions cfg w targetAddr statusRes ks)
        by assumption.
      rewrite keysToUse_falsy by exact Hfalsy. reflexivity. }
    split; [exact Hsent|]. rewrite Hsent.
    destruct (loop_keys_prefix w (targetAddr ++ "/v1/sys/unseal")
                               (firstn 3 ks) []) as [m Hm].
    split; [exists m; exact Hm|]. split.
    + rewrite Hm, !length_firstn. lia.
    + intros Hall. apply loop_keys_all. exact Hall.
  - intros w' addr other n ks Hother Hsealed Hn Hpos Hfetch.
    rewrite (checkAndUnseal_submissions cfg w' addr other ks) by assumption.
    rewrite (Hpositive ks other n Hn Hpos). reflexivity.
Qed.

Lemma falsy_threshold_is_default_witness :
  keysToUse ["k1"; "k2"; "k3"; "k4"; "k5"] (status true 0 0) = ["k1"; "k2"; "k3"]
  /\ checkAndUnseal cfg_two w_zero_threshold "https://vault-0:8200"
     = checkAndUnseal cfg_two
         (with_status w_zero_threshold (Normal (omit_t (status true 0 0))))
         "https://vault-0:8200"
  /\ submissions (trace (checkAndUnseal cfg_two w_zero_threshold
                                        "https://vault-0:8200"))
     = ["k1"; "k2"; "k3"].
Proof.
  pose proof (falsy_threshold_is_default cfg_two w_zero_threshold
                "https://vault-0:8200" (status true 0 0) eq_refl eq_refl)
    as (Hthree & _ & Hsame & _ & Hrun & _).
  destruct (Hrun ["k1"; "k2"; "k3"; "k4"; "k5"] eq_refl eq_refl)
    as (_ & _ & _ & Hall).
  refine (conj (Hthree ["k1"; "k2"; "k3"; "k4"; "k5"]) (conj Hsame (Hall _))).
  intros pre k post _. eexists. split; reflexivity.
Defined.

(** ** What the key fetch returns *)

(** C7, as first stated, fails on a response that is malformed and has
    values all the same.  The key path of [w_text_collection] holds the
    text "abc", which is no object of key shares; the login succeeds,
    [getUnsealKeys] does not fail but returns the three characters, and
    the run submits them as keys. *)
Lemma text_collection_is_returned :
  is_key_object (text "abc") = false
  /\ outcome (getPrimaryVaultToken cfg_two w_text_collection) = Normal "s.token"
  /\ get_keys w_text_collection
       (primaryVaultAddr cfg_two ++ "/v1/" ++ unsealKeysPath cfg_two)
       "s.token" (vaultNamespace cfg_two)
     = Normal (kv_body (text "abc"))
  /\ outcome (getUnsealKeys cfg_two w_text_collection) = Normal ["a"; "b"; "c"]
  /\ ~ (exists e, outcome (getUnsealKeys cfg_two w_text_collection) = Throw e)
  /\ submissions (trace (checkAndUnseal cfg_two w_text_collection
                                        "https://vault-0:8200"))
     = ["a"; "b"; "c"].
Proof.
  repeat split.
  intros [e He]. discriminate He.
Qed.

(** C7, amended: after a login that succeeded, [getUnsealKeys] fails
    whenever the key read fails, the body has no [data.data] to look
    into, or the collection under it is missing or empty, the last two
    with the error "No unseal keys found or path is incorrect."; in
    every other case it returns the values of what it found there in
    their own order, also when that is no object of key shares: of a
    text its characters.  (An absent [data.data] is [None]; a [null] one
    throws the same [TypeError] and is the read answered by [Throw].) *)
Theorem getUnsealKeys_fails_without_keys
        (cfg : config) (w : World) (token : string) :
  outcome (getPrimaryVaultToken cfg w) = Normal token ->
  let answer := get_keys w (primaryVaultAddr cfg ++ "/v1/" ++ unsealKeysPath cfg)
                         token (vaultNamespace cfg) in
  (forall e, answer = Throw e -> outcome (getUnsealKeys cfg w) = Throw e)
  /\ (forall resp,
        answer = Normal resp -> data resp = None ->
        outcome (getUnsealKeys cfg w)
        = Throw (TypeError "Cannot read properties of undefined (reading 'data')"))
  /\ (forall resp,
        answer = Normal resp ->
        data resp = Some None \/ data resp = Some (Some []) ->
        outcome (getUnsealKeys cfg w)
        = Throw (Error "No unseal keys found or path is incorrect."))
  /\ (forall resp keys,
        answer = Normal resp -> data resp = Some (Some keys) -> keys <> [] ->
        outcome (getUnsealKeys cfg w) = Normal (map snd keys))
  /\ (forall v,
        answer = Normal (kv_body v) ->
        outcome (getUnsealKeys cfg w)
        = match own_properties v with
          | [] => Throw (Error "No unseal keys found or path is incorrect.")
          | _ :: _ => Normal (map snd (own_properties v))
          end).
Proof.
  intros Hlogin answer. subst answer. unfold getUnsealKeys.
  destruct (getPrimaryVaultToken cfg w) as [tr [tok|e]]; cbn in Hlogin;
    inversion Hlogin; subst.
  unfold try_catch, bind, await, emit, throw, ret, outcome. cbn.
  split; [|split; [|split; [|split]]].
  - intros e Hanswer. rewrite Hanswer. reflexivity.
  - intros resp Hanswer Hdata. rewrite Hanswer. cbn. rewrite Hdata. reflexivity.
  - intros resp Hanswer [Hdata|Hdata]; rewrite Hanswer; cbn; rewrite Hdata;
      reflexivity.
  - intros resp keys Hanswer Hdata Hkeys. rewrite Hanswer. cbn. rewrite Hdata.
    destruct keys as [|key rest]; [contradiction Hkeys; reflexivity|].
    reflexivity.
  - intros v Hanswer. rewrite Hanswer. cbn.
    destruct (own_properties v) as [|key rest]; reflexivity.
Qed.

Lemma getUnsealKeys_fails_without_keys_witness :
  outcome (getUnsealKeys cfg_two w_third_unseals)
  = Normal ["k1"; "k2"; "k3"; "k4"; "k5"]
  /\ outcome (getUnsealKeys cfg_two w_empty_path)
     = Throw (Error "No unseal keys found or path is incorrect.")
  /\ outcome (getUnsealKeys cfg_two w_text_collection) = Normal ["a"; "b"; "c"].
Proof.
  split; [|split].
  - pose proof (getUnsealKeys_fails_without_keys cfg_two w_third_unseals
                  "s.token" eq_refl) as (_ & _ & _ & Hvalues & _).
    apply (Hvalues five_keys _ eq_refl eq_refl). discriminate.
  - pose proof (getUnsealKeys_fails_without_keys cfg_two w_empty_path
                  "s.token" eq_refl) as (_ & _ & Hnone & _).
    apply (Hnone no_keys eq_refl). right. reflexivity.
  - pose proof (getUnsealKeys_fails_without_keys cfg_two w_text_collection
                  "s.token" eq_refl) as (_ & _ & _ & _ & Htext).
    exact (Htext (text "abc") eq_refl).
Defined.

(** ** The target list of the configuration *)

Lemma nonempty_true (s : string) : nonempty s = true <-> s <> "".
Proof.
  destruct s; cbn; split; intros H; try reflexivity; try discriminate.
  contradiction H. reflexivity.
Qed.

(** C10: whatever [TARGET_VAULT_ADDRS] holds, the parsed target list is
    the comma-separated pieces of it that are not empty, in their order,
    so no address in it is empty; an unset or empty variable gives the
    empty list, on which the sweep only warns. *)
Theorem target_list_drops_empty_entries (v : option string) :
  Forall (fun addr => addr <> "") (parseTargetVaultAddrs v)
  /\ (forall addr,
        In addr (parseTargetVaultAddrs v)
        <-> In addr (split "," (env_or v "")) /\ addr <> "")
  /\ parseTargetVaultAddrs None = []
  /\ parseTargetVaultAddrs (Some "") = []
  /\ (forall env worlds,
        env "TARGET_VAULT_ADDRS" = None \/ env "TARGET_VAULT_ADDRS" = Some "" ->
        pollVaultNodes (Config.load env) worlds
        = {| sweep_console := [console_log cycle_start; console_warn no_targets];
             sweep_runs := [] |}).
Proof.
  split; [|split; [|repeat split]].
  - apply Forall_forall. intros addr Hin.
    apply filter_In in Hin. apply nonempty_true. apply Hin.
  - intros addr. unfold parseTargetVaultAddrs. rewrite filter_In, nonempty_true.
    reflexivity.
  - intros env worlds [Hunset|Hempty]; unfold pollVaultNodes, Config.load;
      cbn [targetVaultAddrs]; [rewrite Hunset|rewrite Hempty]; reflexivity.
Qed.

Example target_list_stray_commas :
  parseTargetVaultAddrs (Some ",https://vault-0:8200,,https://vault-1:8200,")
  = ["https://vault-0:8200"; "https://vault-1:8200"]
  /\ parseTargetVaultAddrs (Some ",,,") = [].
Proof. split; reflexivity. Qed.

(** * Further properties of the code *)

(** ** [getPrimaryVaultToken] *)

Section Login.

Variable cfg : config.
Variable w : World.

Let login_url := primaryVaultAddr cfg ++ "/v1/auth/kubernetes/login".
Let keys_url := primaryVaultAddr cfg ++ "/v1/" ++ unsealKeysPath cfg.

(** A credential that cannot be read ends the login before anything is
    sent: the login and the key fetch around it stop after the file read,
    each writes its error line, and the error thrown is the file's. *)
Theorem unreadable_credential_sends_nothing (e : jserror) :
  read_file w (jwtTokenPath cfg) = Throw e ->
  getPrimaryVaultToken cfg w
  = ([console_log login_attempt; fs_readFile (jwtTokenPath cfg);
      console_error (token_error (message e))], Throw e)
  /\ getUnsealKeys cfg w
     = ([console_log login_attempt; fs_readFile (jwtTokenPath cfg);
         console_error (token_error (message e));
         console_error (fetch_error (message e))], Throw e).
Proof.
  intros Hread.
  unfold getUnsealKeys, getPrimaryVaultToken, try_catch, bind, await, emit,
    throw, ret.
  cbn. rewrite Hread. cbn. split; reflexivity.
Qed.

(** A token that [getPrimaryVaultToken] returns is not empty, and it is
    the [client_token] of the answer to the one login request, which
    carried the credential read from the configured file and the
    configured role. *)
Theorem login_returns_the_answered_token (token : string) :
  outcome (getPrimaryVaultToken cfg w) = Normal token ->
  token <> ""
  /\ exists jwt resp,
       read_file w (jwtTokenPath cfg) = Normal jwt
       /\ post_login w login_url jwt (k8sAuthRole cfg) = Normal resp
       /\ auth resp = Some (Some token)
       /\ trace (getPrimaryVaultToken cfg w)
          = [console_log login_attempt; fs_readFile (jwtTokenPath cfg);
             api_post login_url jwt (k8sAuthRole cfg); console_log login_ok].
Proof.
  unfold getPrimaryVaultToken, try_catch, bind, await, emit, throw, ret,
    trace, outcome, login_url.
  cbn.
  destruct (read_file w _) as [jwt|e] eqn:Hread; cbn; [|discriminate].
  destruct (post_login w _ jwt _) as [resp|e] eqn:Hpost; cbn; [|discriminate].
  destruct (auth resp) as [[tok|]|] eqn:Hauth; cbn; try discriminate.
  destruct (nonempty tok) eqn:Htok; cbn; [|discriminate].
  intros H. inversion H; subst. split.
  - apply nonempty_true. exact Htok.
  - exists jwt, resp. repeat split; assumption.
Qed.

(** A login answer whose [auth] has no token, or an empty one, is
    refused with the error "Client token not found in login response.";
    the line of a successful login is not written. *)
Theorem login_without_token_fails (jwt : string) (resp : LoginBody) :
  read_file w (jwtTokenPath cfg) = Normal jwt ->
  post_login w login_url jwt (k8sAuthRole cfg) = Normal resp ->
  auth resp = Some None \/ auth resp = Some (Some "") ->
  getPrimaryVaultToken cfg w
  = ([console_log login_attempt; fs_readFile (jwtTokenPath cfg);
      api_post login_url jwt (k8sAuthRole cfg);
      console_error (token_error "Client token not found in login response.")],
     Throw (Error "Client token not found in login response.")).
Proof.
  intros Hread Hpost Hauth.
  unfold getPrimaryVaultToken, try_catch, bind, await, emit, throw, ret,
    login_url in *.
  cbn. rewrite Hread. cbn. rewrite Hpost. cbn.
  destruct Hauth as [Hauth|Hauth]; rewrite Hauth; reflexivity.
Qed.

(** ** [getUnsealKeys] *)

(** The key read follows the login at once and carries the token the
    login returned, to the configured path of the primary and in the
    configured namespace. *)
Theorem key_read_carries_login_token (token : string) :
  outcome (getPrimaryVaultToken cfg w) = Normal token ->
  exists rest,
    trace (getUnsealKeys cfg w)
    = (trace (getPrimaryVaultToken cfg w)
       ++ console_log fetching_keys
          :: api_get_keys keys_url token (vaultNamespace cfg) :: rest)%list.
Proof.
  unfold getUnsealKeys, keys_url.
  destruct (getPrimaryVaultToken cfg w) as [tr [tok|e]]; cbn;
    intros H; inversion H; subst.
  unfold try_catch, bind, await, emit, throw, ret, trace. cbn.
  destruct (get_keys w _ token _) as [resp|e]; cbn;
    [|rewrite <- app_assoc; eexists; reflexivity].
  destruct (data resp) as [[keys|]|]; cbn;
    try (rewrite <- app_assoc; eexists; reflexivity).
  destruct (List.length (Object_values keys) =? 0)%nat; cbn;
    rewrite <- ?app_assoc; eexists; reflexivity.
Qed.

(** [getUnsealKeys] never returns an empty list: what it returns are the
    values of a collection the primary served, at least one, and the
    count it logs is their number. *)
Theorem fetched_keys_are_never_empty (ks : list string) :
  outcome (getUnsealKeys cfg w) = Normal ks ->
  ks <> []
  /\ In (console_log (fetched_keys (List.length ks))) (trace (getUnsealKeys cfg w))
  /\ exists token resp keys,
       get_keys w keys_url token (vaultNamespace cfg) = Normal resp
       /\ data resp = Some (Some keys)
       /\ ks = map snd keys.
Proof.
  unfold getUnsealKeys, keys_url.
  destruct (getPrimaryVaultToken cfg w) as [tr [tok|e]]; cbn; [|discriminate].
  unfold try_catch, bind, await, emit, throw, ret, trace, outcome. cbn.
  destruct (get_keys w _ tok _) as [resp|e] eqn:Hget; cbn; [|discriminate].
  destruct (data resp) as [[keys|]|] eqn:Hdata; cbn; try discriminate.
  destruct keys as [|key keys]; cbn; [discriminate|].
  intros H. inversion H; subst. repeat split.
  - discriminate.
  - apply in_or_app. right. cbn. auto.
  - exists tok, resp, (key :: keys). repeat split; assumption.
Qed.

(** When the login fails no key read is sent; the key fetch throws the
    login's own error and adds its error line to the login's. *)
Theorem failed_login_reads_no_keys (e : jserror) :
  outcome (getPrimaryVaultToken cfg w) = Throw e ->
  getUnsealKeys cfg w
  = ((trace (getPrimaryVaultToken cfg w)
      ++ [console_error (fetch_error (message e))])%list, Throw e)
  /\ existsb (fun ev => match ev with
                        | api_get_keys _ _ _ => true
                        | _ => false
                        end) (trace (getUnsealKeys cfg w)) = false.
Proof.
  intros Hlogin.
  assert (Hfetch : getUnsealKeys cfg w
            = ((trace (getPrimaryVaultToken cfg w)
                ++ [console_error (fetch_error (message e))])%list, Throw e)).
  { unfold getUnsealKeys.
    destruct (getPrimaryVaultToken cfg w) as [tr [tok|e']]; cbn in *;
      inversion Hlogin; subst. reflexivity. }
  split; [exact Hfetch|].
  rewrite Hfetch. cbn [trace fst]. rewrite existsb_app. cbn.
  rewrite orb_false_r.
  revert Hlogin.
  unfold getPrimaryVaultToken, try_catch, bind, await, emit, throw, ret,
    trace, outcome.
  run; intros H; try discriminate H; reflexivity.
Qed.

(** The Key Source Client makes each of its calls at most once and in
    one order: the file read, the login, the key read. *)
Theorem key_source_calls_once_in_order :
  exists jwt token n,
    key_source_calls (trace (getUnsealKeys cfg w))
    = firstn (S n)
        [fs_readFile (jwtTokenPath cfg);
         api_post login_url jwt (k8sAuthRole cfg);
         api_get_keys keys_url token (vaultNamespace cfg)].
Proof.
  unfold getUnsealKeys, getPrimaryVaultToken, try_catch, bind, await, emit,
    throw, ret, trace, key_source_calls, login_url, keys_url.
  cbn.
  destruct (read_file w _) as [jwt|e]; cbn;
    [|exists "", "", 0%nat; reflexivity].
  destruct (post_login w _ jwt _) as [resp|e]; cbn;
    [|exists jwt, "", 1%nat; reflexivity].
  destruct (auth resp) as [[tok|]|]; cbn;
    try (exists jwt, "", 1%nat; reflexivity).
  destruct (nonempty tok); cbn; [|exists jwt, "", 1%nat; reflexivity].
  exists jwt, tok, 2%nat.
  run; reflexivity.
Qed.

End Login.

Lemma unreadable_credential_sends_nothing_witness :
  getUnsealKeys cfg_two w_no_credential
  = ([console_log login_attempt; fs_readFile "/var/run/secrets/vault/token";
      console_error (token_error "ENOENT: no such file or directory");
      console_error (fetch_error "ENOENT: no such file or directory")],
     Throw {| response := None; message := "ENOENT: no such file or directory" |}).
Proof.
  exact (proj2 (unreadable_credential_sends_nothing cfg_two w_no_credential
                  {| response := None;
                     message := "ENOENT: no such file or directory" |}
                  eq_refl)).
Defined.

Lemma login_returns_the_answered_token_witness :
  "s.token" <> ""
  /\ exists jwt resp,
       read_file w_third_unseals (jwtTokenPath cfg_two) = Normal jwt
       /\ post_login w_third_unseals
            (primaryVaultAddr cfg_two ++ "/v1/auth/kubernetes/login")
            jwt (k8sAuthRole cfg_two) = Normal resp
       /\ auth resp = Some (Some "s.token")
       /\ trace (getPrimaryVaultToken cfg_two w_third_unseals)
          = [console_log login_attempt; fs_readFile (jwtTokenPath cfg_two);
             api_post (primaryVaultAddr cfg_two ++ "/v1/auth/kubernetes/login")
                      jwt (k8sAuthRole cfg_two);
             console_log login_ok].
Proof.
  exact (login_returns_the_answered_token cfg_two w_third_unseals "s.token"
           eq_refl).
Defined.

Lemma login_without_token_fails_witness :
  outcome (getPrimaryVaultToken cfg_two w_no_token)
  = Throw (Error "Client token not found in login response.").
Proof.
  exact (f_equal snd
           (login_without_token_fails cfg_two w_no_token "jwt"
              {| auth := Some None |} eq_refl eq_refl (or_introl eq_refl))).
Defined.

Lemma key_read_carries_login_token_witness :
  exists rest,
    trace (getUnsealKeys cfg_two w_two_keys)
    = (trace (getPrimaryVaultToken cfg_two w_two_keys)
       ++ console_log fetching_keys
          :: api_get_keys
               "https://vault.vault.svc.cluster.local:8200/v1/kv/data/internal/config/unseal-keys"
               "s.token" "vault" :: rest)%list.
Proof.
  exact (key_read_carries_login_token cfg_two w_two_keys "s.token" eq_refl).
Defined.

Lemma fetched_keys_are_never_empty_witness :
  ["k1"; "k2"] <> []
  /\ In (console_log (fetched_keys 2)) (trace (getUnsealKeys cfg_two w_two_keys)).
Proof.
  pose proof (fetched_keys_are_never_empty cfg_two w_two_keys ["k1"; "k2"]
                eq_refl) as (Hne & Hlog & _).
  exact (conj Hne Hlog).
Defined.

Lemma failed_login_reads_no_keys_witness :
  outcome (getUnsealKeys cfg_two w_login_denied)
  = Throw {| response := Some (403, "permission denied");
             message := "Request failed with status code 403" |}.
Proof.
  exact (f_equal snd
           (proj1 (failed_login_reads_no_keys cfg_two w_login_denied
                     {| response := Some (403, "permission denied");
                        message := "Request failed with status code 403" |}
                     eq_refl))).
Defined.

(** ** [checkAndUnseal] *)

Lemma probes_app (tr1 tr2 : list event) :
  probes (tr1 ++ tr2)%list = (probes tr1 ++ probes tr2)%list.
Proof.
  induction tr1 as [|ev tr1 IH]; [reflexivity|].
  destruct ev; cbn; rewrite IH; reflexivity.
Qed.

Lemma unseal_requests_app (tr1 tr2 : list event) :
  unseal_requests (tr1 ++ tr2)%list
  = (unseal_requests tr1 ++ unseal_requests tr2)%list.
Proof.
  induction tr1 as [|ev tr1 IH]; [reflexivity|].
  destruct ev; cbn; rewrite IH; reflexivity.
Qed.

Lemma getUnsealKeys_no_target_traffic (cfg : config) (w : World) :
  probes (trace (getUnsealKeys cfg w)) = []
  /\ unseal_requests (trace (getUnsealKeys cfg w)) = []
  /\ key_source_calls (trace (getUnsealKeys cfg w)) <> [].
Proof.
  unfold getUnsealKeys, getPrimaryVaultToken, try_catch, bind, await, emit,
    throw, ret, trace, key_source_calls.
  run; repeat split; discriminate.
Qed.

Lemma reported_no_traffic (targetAddr : string) (e : jserror) :
  probes [reported targetAddr e] = []
  /\ unseal_requests [reported targetAddr e] = []
  /\ key_source_calls [reported targetAddr e] = [].
Proof. unfold reported. destruct (response e) as [[? ?]|]; repeat split. Qed.

(** What the loop sends, with the endpoint it sends it to; the loop
    probes nothing. *)
Lemma submit_traffic (w : World) (targetAddr : string) (keys sent : list string) :
  unseal_requests (trace (submit w targetAddr sent keys))
  = map (fun key => (targetAddr ++ "/v1/sys/unseal", key))
        (loop_keys w (targetAddr ++ "/v1/sys/unseal") sent keys)
  /\ probes (trace (submit w targetAddr sent keys)) = [].
Proof.
  revert sent.
  induction keys as [|key rest IH]; intros sent; [split; reflexivity|].
  cbn [submit loop_keys].
  unfold bind, await, emit, trace in *. cbn.
  destruct (put_unseal w _ sent key) as [unsealRes|e]; cbn;
    [|split; reflexivity].
  destruct (truthy (sealed unsealRes)); cbn; [|split; reflexivity].
  specialize (IH (sent ++ [key])%list).
  destruct (submit w targetAddr (sent ++ [key]) rest) as [tr r].
  cbn in *. destruct IH as (IHput & IHprobe).
  rewrite IHput, IHprobe. split; reflexivity.
Qed.

Lemma firstn_incl {A : Type} (n : nat) (l : list A) : incl (firstn n l) l.
Proof.
  intros x Hx. rewrite <- (firstn_skipn n l). apply in_or_app. left. exact Hx.
Qed.

Lemma loop_keys_incl (w : World) (url : string) (keys sent : list string) :
  incl (loop_keys w url sent keys) keys.
Proof.
  destruct (loop_keys_prefix w url keys sent) as [n Hn]. rewrite Hn.
  apply firstn_incl.
Qed.

Lemma keysToUse_incl (unsealKeys : list string) (statusRes : SealStatus) :
  incl (keysToUse unsealKeys statusRes) unsealKeys.
Proof. unfold keysToUse, slice0. apply firstn_incl. Qed.

(** Every run probes its own target exactly once and never again,
    whatever follows. *)
Lemma run_probes_once (cfg : config) (w : World) (targetAddr : string) :
  probes (trace (checkAndUnseal cfg w targetAddr))
  = [targetAddr ++ "/v1/sys/seal-status"].
Proof.
  rewrite checkAndUnseal_paths. cbn zeta.
  destruct (get_status w _) as [statusRes|e]; cbn [trace fst].
  - destruct (truthy (sealed statusRes)); [|reflexivity].
    pose proof (getUnsealKeys_no_target_traffic cfg w) as (Hfetch & _).
    unfold trace in Hfetch.
    destruct (getUnsealKeys cfg w) as [fetch [unsealKeys|e]]; cbn [fst] in *.
    + pose proof (submit_traffic w targetAddr (keysToUse unsealKeys statusRes) [])
        as (_ & Hloop).
      unfold trace in Hloop.
      destruct (submit w targetAddr [] _) as [loop [[]|e]];
        cbn [trace fst] in *;
        rewrite !probes_app, Hfetch, Hloop;
        try rewrite (proj1 (reported_no_traffic targetAddr e)); reflexivity.
    + cbn [trace fst].
      rewrite !probes_app, Hfetch, (proj1 (reported_no_traffic targetAddr e)).
      reflexivity.
  - rewrite probes_app, (proj1 (reported_no_traffic targetAddr e)). reflexivity.
Qed.

(** A run sends keys nowhere but to the unseal endpoint of its own
    target, and every key it sends is one that the key fetch of this run
    returned, whatever threshold the probe reported. *)
Theorem keys_go_only_to_the_target
        (cfg : config) (w : World) (targetAddr : string) :
  Forall (fun request =>
            fst request = targetAddr ++ "/v1/sys/unseal"
            /\ exists ks, outcome (getUnsealKeys cfg w) = Normal ks
                          /\ In (snd request) ks)
         (unseal_requests (trace (checkAndUnseal cfg w targetAddr))).
Proof.
  rewrite checkAndUnseal_paths. cbn zeta.
  destruct (get_status w _) as [statusRes|e]; cbn [trace fst].
  - destruct (truthy (sealed statusRes)); [|constructor].
    pose proof (getUnsealKeys_no_target_traffic cfg w) as (_ & Hfetch & _).
    unfold trace, outcome in *.
    destruct (getUnsealKeys cfg w) as [fetch [unsealKeys|e]]; cbn [fst snd] in *.
    + pose proof (submit_traffic w targetAddr (keysToUse unsealKeys statusRes) [])
        as (Hloop & _).
      unfold trace in Hloop.
      assert (Hsent : Forall
                (fun request =>
                   fst request = targetAddr ++ "/v1/sys/unseal"
                   /\ exists ks, Normal unsealKeys = Normal ks
                                 /\ In (snd request) ks)
                (map (fun key => (targetAddr ++ "/v1/sys/unseal", key))
                     (loop_keys w (targetAddr ++ "/v1/sys/unseal") []
                                (keysToUse unsealKeys statusRes)))).
      { apply Forall_forall. intros request Hin.
        apply in_map_iff in Hin. destruct Hin as (key & Hreq & Hkey).
        subst request. split; [reflexivity|].
        exists unsealKeys. split; [reflexivity|].
        apply (keysToUse_incl unsealKeys statusRes).
        apply (loop_keys_incl w _ _ [] key Hkey). }
      destruct (submit w targetAddr [] _) as [loop [[]|e]];
        cbn [trace fst] in *;
        rewrite !unseal_requests_app, Hfetch, Hloop;
        try rewrite (proj1 (proj2 (reported_no_traffic targetAddr e)));
        cbn; rewrite ?app_nil_r; exact Hsent.
    + cbn [fst].
      rewrite !unseal_requests_app, Hfetch,
        (proj1 (proj2 (reported_no_traffic targetAddr e))).
      constructor.
  - rewrite unseal_requests_app,
      (proj1 (proj2 (reported_no_traffic targetAddr e))).
    constructor.
Qed.

(** The Key Source Client is called exactly in the runs whose probe
    reported the target sealed. *)
Theorem key_source_called_iff_sealed
        (cfg : config) (w : World) (targetAddr : string) :
  key_source_calls (trace (checkAndUnseal cfg w targetAddr)) <> []
  <-> exists statusRes,
        get_status w (targetAddr ++ "/v1/sys/seal-status") = Normal statusRes
        /\ truthy (sealed statusRes) = true.
Proof.
  rewrite checkAndUnseal_paths. cbn zeta.
  destruct (get_status w _) as [statusRes|e] eqn:Hprobe; cbn [trace fst].
  - destruct (truthy (sealed statusRes)) eqn:Hsealed.
    + split; [intros _; exists statusRes; split; [reflexivity|exact Hsealed]|].
      intros _.
      pose proof (getUnsealKeys_no_target_traffic cfg w) as (_ & _ & Hcalls).
      unfold trace in Hcalls.
      destruct (getUnsealKeys cfg w) as [fetch [unsealKeys|e]]; cbn [fst] in *;
        [destruct (submit w targetAddr [] _) as [loop [[]|e]]|];
        cbn [trace fst];
        unfold key_source_calls in *; rewrite !filter_app; cbn [filter];
        cbn; intros Hnil; apply app_eq_nil in Hnil; apply Hcalls, Hnil.
    + split; [intros Hcalls; contradiction Hcalls; reflexivity|].
      intros (other & Hother & Hs). inversion Hother; subst.
      rewrite Hs in Hsealed. discriminate.
  - split.
    + intros Hcalls. contradiction Hcalls.
      pose proof (reported_lines targetAddr e) as (_ & _ & _ & Rk).
      unfold key_source_calls. cbn. rewrite Rk. reflexivity.
    + intros (other & Hother & _). discriminate.
Qed.

(** The loop, past the keys whose answers report the target sealed. *)
Lemma submit_past_sealed (w : World) (targetAddr : string)
      (pre rest sent : list string) :
  (forall p1 q p2, pre = (p1 ++ q :: p2)%list ->
     exists r, put_unseal w (targetAddr ++ "/v1/sys/unseal") (sent ++ p1)%list q
               = Normal r
               /\ truthy (sealed r) = true) ->
  exists tr,
    submit w targetAddr sent (pre ++ rest)%list
    = ((tr ++ trace (submit w targetAddr (sent ++ pre)%list rest))%list,
       outcome (submit w targetAddr (sent ++ pre)%list rest))
    /\ submissions tr = pre
    /\ existsb says_now_unsealed tr = false.
Proof.
  revert sent.
  induction pre as [|key pre IH]; intros sent Hsealed.
  - exists []. rewrite app_nil_r. cbn. split; [apply submit_split|].
    split; reflexivity.
  - destruct (Hsealed [] key pre eq_refl) as (r & Hput & Hr).
    rewrite app_nil_r in Hput.
    destruct (IH (sent ++ [key])%list) as (tr & Hrun & Hsub & Hnow).
    { intros p1 q p2 Hpre.
      destruct (Hsealed (key :: p1) q p2) as (r' & Hput' & Hr').
      - rewrite Hpre. reflexivity.
      - exists r'. split; [|exact Hr']. rewrite <- app_assoc. exact Hput'. }
    exists (console_log (submitting targetAddr)
            :: api_put (targetAddr ++ "/v1/sys/unseal") key
            :: console_log (unseal_progress targetAddr (progress r) (t r))
            :: tr).
    cbn [app submit]. unfold bind, await, emit. cbn.
    rewrite Hput. cbn. rewrite Hr. cbn.
    rewrite Hrun. rewrite <- !app_assoc. cbn.
    repeat split.
    + rewrite Hsub. reflexivity.
    + exact Hnow.
Qed.

Lemma existsb_false_weaken {A : Type} (p q : A -> bool) (l : list A) :
  (forall x, p x = true -> q x = true) ->
  existsb q l = false -> existsb p l = false.
Proof.
  intros Hpq. induction l as [|x l IH]; [reflexivity|].
  cbn. intros H. apply orb_false_iff in H. destruct H as (Hx & Hl).
  rewrite (IH Hl), orb_false_r.
  destruct (p x) eqn:Hp; [|reflexivity].
  rewrite (Hpq x Hp) in Hx. discriminate.
Qed.

Lemma getUnsealKeys_returns_silently (cfg : config) (w : World) (ks : list string) :
  outcome (getUnsealKeys cfg w) = Normal ks ->
  existsb says_fetch_failed (trace (getUnsealKeys cfg w)) = false.
Proof.
  intros Hfetch.
  apply (existsb_false_weaken says_fetch_failed is_console_error).
  - intros [l|l|l| | | | |]; cbn; try discriminate. reflexivity.
  - exact (getUnsealKeys_returns cfg w ks Hfetch).
Qed.

Section Submission.

Variable cfg : config.
Variable w : World.
Variable targetAddr : string.
Variable statusRes : SealStatus.
Variable unsealKeys : list string.

Hypothesis Hprobe :
  get_status w (targetAddr ++ "/v1/sys/seal-status") = Normal statusRes.
Hypothesis Hsealed : truthy (sealed statusRes) = true.
Hypothesis Hfetch : outcome (getUnsealKeys cfg w) = Normal unsealKeys.

Variables pre post : list string.
Variable k : string.

Hypothesis Hkeys : keysToUse unsealKeys statusRes = (pre ++ k :: post)%list.
Hypothesis Hpre :
  forall p1 q p2, pre = (p1 ++ q :: p2)%list ->
    exists r, put_unseal w (targetAddr ++ "/v1/sys/unseal") p1 q = Normal r
              /\ truthy (sealed r) = true.

(** The run up to the request for [k]. *)
Lemma run_up_to_key :
  exists tr,
    checkAndUnseal cfg w targetAddr
    = (let (loop, r) := submit w targetAddr pre (k :: post) in
       ((tr ++ loop
         ++ match r with
            | Normal _ => []
            | Throw e => [reported targetAddr e]
            end)%list, Normal tt))
    /\ submissions tr = pre
    /\ existsb says_already_unsealed tr = false
    /\ existsb says_now_unsealed tr = false
    /\ existsb says_run_failed tr = false
    /\ existsb says_fetch_failed tr = false
    /\ existsb is_console_error tr = false.
Proof.
  destruct (submit_past_sealed w targetAddr pre (k :: post) [] Hpre)
    as (tr & Hrun & Hsub & Hnow).
  pose proof (getUnsealKeys_quiet cfg w) as (Qsub & Qalready & Qnow & Qrun & _).
  pose proof (getUnsealKeys_returns cfg w unsealKeys Hfetch) as Qclean.
  pose proof (getUnsealKeys_returns_silently cfg w unsealKeys Hfetch) as Qsilent.
  exists ([console_log (checking targetAddr);
           api_get (targetAddr ++ "/v1/sys/seal-status");
           console_log (is_sealed targetAddr)]
          ++ trace (getUnsealKeys cfg w) ++ tr)%list.
  split.
  - rewrite checkAndUnseal_paths. cbn zeta. rewrite Hprobe, Hsealed.
    rewrite getUnsealKeys_split, Hfetch, Hkeys, Hrun. cbn [app].
    rewrite (submit_split w targetAddr pre (k :: post)).
    cbn [trace fst].
    destruct (outcome (submit w targetAddr pre (k :: post))) as [[]|e];
      cbn; rewrite <- ?app_assoc, ?app_nil_r; reflexivity.
  - pose proof (submit_lines w targetAddr (pre ++ k :: post) [])
      as (La & Lr & Lf & Le & _).
    unfold trace in La, Lr, Lf, Le. rewrite Hrun in La, Lr, Lf, Le.
    cbn [fst] in La, Lr, Lf, Le.
    rewrite existsb_app in La, Lr, Lf, Le.
    apply orb_false_iff in La, Lr, Lf, Le.
    rewrite !submissions_app, !existsb_app, Qsub, Qalready, Qnow, Qrun,
      Qclean, Qsilent, Hsub, Hnow,
      (proj1 La), (proj1 Lr), (proj1 Lf), (proj1 Le).
    repeat split.
Qed.

End Submission.

(** An unseal request that fails ends the submission: the keys before
    it were sent, it was sent, no key after it is; the catch block writes
    the error as the last line and the run ends normally, its outcome
    Failed for the target. *)
Theorem failed_submission_stops_the_run
        (cfg : config) (w : World) (targetAddr : string)
        (statusRes : SealStatus) (unsealKeys pre post : list string)
        (k : string) (e : jserror) :
  get_status w (targetAddr ++ "/v1/sys/seal-status") = Normal statusRes ->
  truthy (sealed statusRes) = true ->
  outcome (getUnsealKeys cfg w) = Normal unsealKeys ->
  keysToUse unsealKeys statusRes = (pre ++ k :: post)%list ->
  (forall p1 q p2, pre = (p1 ++ q :: p2)%list ->
     exists r, put_unseal w (targetAddr ++ "/v1/sys/unseal") p1 q = Normal r
               /\ truthy (sealed r) = true) ->
  put_unseal w (targetAddr ++ "/v1/sys/unseal") pre k = Throw e ->
  let run := checkAndUnseal cfg w targetAddr in
  submissions (trace run) = (pre ++ [k])%list
  /\ outcome run = Normal tt
  /\ (exists tr, trace run = (tr ++ [reported targetAddr e])%list)
  /\ Outcome_of (trace run) = Failed unreachable.
Proof.
  intros Hprobe Hsealed Hfetch Hkeys Hpre Hput run. subst run.
  destruct (run_up_to_key cfg w targetAddr statusRes unsealKeys
              Hprobe Hsealed Hfetch pre post k Hkeys Hpre)
    as (tr & Hrun & Hsub & Ha & Hn & Hr & Hf & _).
  rewrite Hrun. cbn [submit]. unfold bind, await, emit. cbn.
  rewrite Hput. cbn.
  repeat split.
  - rewrite submissions_app, Hsub.
    unfold reported. destruct (response e) as [[? ?]|]; reflexivity.
  - exists (tr ++ [console_log (submitting targetAddr);
                   api_put (targetAddr ++ "/v1/sys/unseal") k])%list.
    rewrite <- app_assoc. reflexivity.
  - unfold Outcome_of. rewrite !existsb_app, Ha, Hn, Hr, Hf.
    unfold reported. destruct (response e) as [[? ?]|]; reflexivity.
Qed.

Lemma failed_submission_stops_the_run_witness :
  submissions (trace (checkAndUnseal cfg_two w_second_put_fails "https://vault-0:8200"))
  = ["k1"; "k2"]
  /\ Outcome_of (trace (checkAndUnseal cfg_two w_second_put_fails
                                       "https://vault-0:8200"))
     = Failed unreachable.
Proof.
  assert (Hpre : forall p1 q p2, ["k1"] = (p1 ++ q :: p2)%list ->
            exists r,
              put_unseal w_second_put_fails
                ("https://vault-0:8200" ++ "/v1/sys/unseal") p1 q = Normal r
              /\ truthy (sealed r) = true).
  { intros p1 q p2 H. destruct p1 as [|x p1].
    - eexists. split; reflexivity.
    - exfalso. inversion H. destruct p1; discriminate. }
  pose proof (failed_submission_stops_the_run cfg_two w_second_put_fails
                "https://vault-0:8200" (status true 3 0)
                ["k1"; "k2"; "k3"; "k4"; "k5"] ["k1"] ["k3"] "k2"
                {| response := Some (500, "internal error");
                   message := "Request failed with status code 500" |}
                eq_refl eq_refl eq_refl eq_refl Hpre eq_refl)
    as (Hsub & _ & _ & Hout).
  exact (conj Hsub Hout).
Defined.

(** The first answer that reports the target unsealed ends the run: the
    keys up to that one were sent and none after it, the line "now
    UNSEALED" is the last of the run, no error line is written and the
    outcome is Unsealed. *)
Theorem unsealing_answer_ends_the_run
        (cfg : config) (w : World) (targetAddr : string)
        (statusRes : SealStatus) (unsealKeys pre post : list string)
        (k : string) (unsealRes : SealStatus) :
  get_status w (targetAddr ++ "/v1/sys/seal-status") = Normal statusRes ->
  truthy (sealed statusRes) = true ->
  outcome (getUnsealKeys cfg w) = Normal unsealKeys ->
  keysToUse unsealKeys statusRes = (pre ++ k :: post)%list ->
  (forall p1 q p2, pre = (p1 ++ q :: p2)%list ->
     exists r, put_unseal w (targetAddr ++ "/v1/sys/unseal") p1 q = Normal r
               /\ truthy (sealed r) = true) ->
  put_unseal w (targetAddr ++ "/v1/sys/unseal") pre k = Normal unsealRes ->
  truthy (sealed unsealRes) = false ->
  let run := checkAndUnseal cfg w targetAddr in
  submissions (trace run) = (pre ++ [k])%list
  /\ (exists tr, trace run = (tr ++ [console_log (now_unsealed targetAddr)])%list)
  /\ existsb is_console_error (trace run) = false
  /\ Outcome_of (trace run) = Unsealed.
Proof.
  intros Hprobe Hsealed Hfetch Hkeys Hpre Hput Hunsealed run. subst run.
  destruct (run_up_to_key cfg w targetAddr statusRes unsealKeys
              Hprobe Hsealed Hfetch pre post k Hkeys Hpre)
    as (tr & Hrun & Hsub & Ha & Hn & Hr & Hf & He).
  rewrite Hrun. cbn [submit]. unfold bind, await, emit. cbn.
  rewrite Hput. cbn. rewrite Hunsealed. cbn.
  repeat split.
  - rewrite submissions_app. cbn. rewrite Hsub. reflexivity.
  - exists (tr ++ [console_log (submitting targetAddr);
                   api_put (targetAddr ++ "/v1/sys/unseal") k])%list.
    rewrite <- app_assoc. reflexivity.
  - rewrite existsb_app, He. reflexivity.
  - unfold Outcome_of. rewrite !existsb_app, Ha, Hn. reflexivity.
Qed.

Lemma unsealing_answer_ends_the_run_witness :
  submissions (trace (checkAndUnseal cfg_two w_third_unseals "https://vault-1:8200"))
  = ["k1"; "k2"; "k3"]
  /\ existsb is_console_error
       (trace (checkAndUnseal cfg_two w_third_unseals "https://vault-1:8200"))
     = false.
Proof.
  assert (Hpre : forall p1 q p2, ["k1"; "k2"] = (p1 ++ q :: p2)%list ->
            exists r,
              put_unseal w_third_unseals
                ("https://vault-1:8200" ++ "/v1/sys/unseal") p1 q = Normal r
              /\ truthy (sealed r) = true).
  { intros p1 q p2 H. destruct p1 as [|x [|y p1]].
    - eexists. split; reflexivity.
    - eexists. split; reflexivity.
    - exfalso. inversion H. destruct p1; discriminate. }
  pose proof (unsealing_answer_ends_the_run cfg_two w_third_unseals
                "https://vault-1:8200" (status true 3 0)
                ["k1"; "k2"; "k3"; "k4"; "k5"] ["k1"; "k2"] [] "k3"
                (status false 3 3)
                eq_refl eq_refl eq_refl eq_refl Hpre eq_refl eq_refl)
    as (Hsub & _ & Herr & _).
  exact (conj Hsub Herr).
Defined.

(** A negative threshold does not bound the number of keys: it drops
    that many keys from the end of the fetched ones.  When it drops them
    all, the run has logged in and fetched the keys and submits none of
    them; it ends without a word, like a run that went through all its
    keys. *)
Theorem negative_threshold_drops_from_the_end
        (cfg : config) (w : World) (targetAddr : string)
        (statusRes : SealStatus) (n : Z) (ks : list string) :
  get_status w (targetAddr ++ "/v1/sys/seal-status") = Normal statusRes ->
  truthy (sealed statusRes) = true ->
  t statusRes = JNum n ->
  n < 0 ->
  outcome (getUnsealKeys cfg w) = Normal ks ->
  keysToUse ks statusRes = firstn (List.length ks - Z.to_nat (- n)) ks
  /\ (Z.of_nat (List.length ks) <= - n ->
      checkAndUnseal cfg w targetAddr
      = (([console_log (checking targetAddr);
           api_get (targetAddr ++ "/v1/sys/seal-status");
           console_log (is_sealed targetAddr)]
          ++ trace (getUnsealKeys cfg w))%list, Normal tt)
      /\ submissions (trace (checkAndUnseal cfg w targetAddr)) = []
      /\ Outcome_of (trace (checkAndUnseal cfg w targetAddr)) = PartiallySubmitted).
Proof.
  intros Hprobe Hsealed Ht Hn Hfetch.
  assert (Hkeys : keysToUse ks statusRes
                  = firstn (List.length ks - Z.to_nat (- n)) ks).
  { unfold keysToUse, js_or, slice0. rewrite Ht. cbn.
    destruct (Z.eqb_spec n 0); [lia|]. cbn.
    destruct (Z.ltb_spec n 0); [|lia].
    f_equal. lia. }
  split; [exact Hkeys|].
  intros Hall.
  assert (Hnone : keysToUse ks statusRes = []).
  { rewrite Hkeys. replace (List.length ks - Z.to_nat (- n))%nat with 0%nat by lia.
    reflexivity. }
  assert (Hrun : checkAndUnseal cfg w targetAddr
                 = (([console_log (checking targetAddr);
                      api_get (targetAddr ++ "/v1/sys/seal-status");
                      console_log (is_sealed targetAddr)]
                     ++ trace (getUnsealKeys cfg w))%list, Normal tt)).
  { rewrite checkAndUnseal_paths. cbn zeta. rewrite Hprobe, Hsealed.
    rewrite getUnsealKeys_split, Hfetch, Hnone. cbn.
    rewrite app_nil_r. reflexivity. }
  pose proof (getUnsealKeys_quiet cfg w) as (Qsub & Qalready & Qnow & Qrun & _).
  rewrite Hrun. cbn [trace fst]. repeat split.
  - rewrite submissions_app, Qsub. reflexivity.
  - unfold Outcome_of. rewrite !existsb_app, Qalready, Qnow, Qrun. reflexivity.
Qed.

Lemma negative_threshold_drops_from_the_end_witness :
  keysToUse ["k1"; "k2"; "k3"; "k4"; "k5"] (status true (-5) 0) = []
  /\ submissions (trace (checkAndUnseal cfg_two w_negative_threshold
                                        "https://vault-0:8200")) = []
  /\ Outcome_of (trace (checkAndUnseal cfg_two w_negative_threshold
                                       "https://vault-0:8200"))
     = PartiallySubmitted.
Proof.
  assert (Hneg : -5 < 0) by lia.
  assert (Hall : Z.of_nat (List.length ["k1"; "k2"; "k3"; "k4"; "k5"]) <= - -5)
    by (cbn; lia).
  pose proof (negative_threshold_drops_from_the_end cfg_two w_negative_threshold
                "https://vault-0:8200" (status true (-5) 0) (-5)
                ["k1"; "k2"; "k3"; "k4"; "k5"]
                eq_refl eq_refl eq_refl Hneg eq_refl) as (Hkeys & Hrun).
  destruct (Hrun Hall) as (_ & Hsub & Hout).
  exact (conj Hkeys (conj Hsub Hout)).
Defined.

(** In every run the calls of the Key Source Client all come before the
    first unseal request: no key is sent before the fetch has returned,
    and the primary is not called again once keys are being sent. *)
Theorem keys_are_fetched_before_any_is_sent
        (cfg : config) (w : World) (targetAddr : string) :
  exists before after,
    trace (checkAndUnseal cfg w targetAddr) = (before ++ after)%list
    /\ submissions before = []
    /\ key_source_calls after = [].
Proof.
  rewrite checkAndUnseal_paths. cbn zeta.
  destruct (get_status w _) as [statusRes|e].
  - destruct (truthy (sealed statusRes)).
    + pose proof (getUnsealKeys_quiet cfg w) as (Qsub & _).
      unfold trace in Qsub.
      destruct (getUnsealKeys cfg w) as [fetch [unsealKeys|e]]; cbn [fst] in *.
      * pose proof (submit_lines w targetAddr (keysToUse unsealKeys statusRes) [])
          as (_ & _ & _ & _ & Lk).
        unfold trace in Lk.
        destruct (submit w targetAddr [] _) as [loop [[]|e]]; cbn [trace fst] in *.
        -- exists ([console_log (checking targetAddr);
                    api_get (targetAddr ++ "/v1/sys/seal-status");
                    console_log (is_sealed targetAddr)] ++ fetch)%list, loop.
           rewrite <- !app_assoc, submissions_app, Qsub. repeat split. exact Lk.
        -- exists ([console_log (checking targetAddr);
                    api_get (targetAddr ++ "/v1/sys/seal-status");
                    console_log (is_sealed targetAddr)] ++ fetch)%list,
                  (loop ++ [reported targetAddr e])%list.
           rewrite <- !app_assoc, submissions_app, Qsub. repeat split.
           unfold key_source_calls in *. rewrite filter_app, Lk.
           apply (proj2 (proj2 (reported_no_traffic targetAddr e))).
      * exists ([console_log (checking targetAddr);
                 api_get (targetAddr ++ "/v1/sys/seal-status");
                 console_log (is_sealed targetAddr)] ++ fetch)%list,
               [reported targetAddr e].
        cbn [trace fst]. rewrite <- !app_assoc, submissions_app, Qsub.
        repeat split.
        apply (proj2 (proj2 (reported_no_traffic targetAddr e))).
    + eexists _, []. cbn [trace fst]. rewrite app_nil_r. repeat split.
  - eexists _, []. cbn [trace fst]. rewrite app_nil_r. repeat split.
    rewrite submissions_app, submissions_reported. reflexivity.
Qed.

(** ** The line that closes a run *)

Lemma getUnsealKeys_closes_nothing (cfg : config) (w : World) :
  filter closes_run (trace (getUnsealKeys cfg w)) = [].
Proof.
  unfold getUnsealKeys, getPrimaryVaultToken, try_catch, bind, await, emit,
    throw, ret, trace.
  run; reflexivity.
Qed.

Lemma reported_closes (targetAddr : string) (e : jserror) :
  closes_run (reported targetAddr e) = true.
Proof. unfold reported. destruct (response e) as [[? ?]|]; reflexivity. Qed.

(** The loop writes "now UNSEALED" at most once, as its last event, and
    only when it ends normally. *)
Lemma submit_closes (w : World) (targetAddr : string) (keys sent : list string) :
  match outcome (submit w targetAddr sent keys) with
  | Throw _ => filter closes_run (trace (submit w targetAddr sent keys)) = []
  | Normal _ =>
      filter closes_run (trace (submit w targetAddr sent keys)) = []
      \/ exists tr,
           trace (submit w targetAddr sent keys)
           = (tr ++ [console_log (now_unsealed targetAddr)])%list
           /\ filter closes_run tr = []
  end.
Proof.
  revert sent.
  induction keys as [|key rest IH]; intros sent; [left; reflexivity|].
  cbn [submit].
  unfold bind, await, emit, trace, outcome in *. cbn.
  destruct (put_unseal w _ sent key) as [unsealRes|e]; cbn; [|reflexivity].
  destruct (truthy (sealed unsealRes)); cbn.
  - specialize (IH (sent ++ [key])%list).
    destruct (submit w targetAddr (sent ++ [key]) rest) as [tr [[]|e]];
      cbn in *; [|exact IH].
    destruct IH as [IH|(tr' & Htr & Hnone)]; [left; exact IH|].
    right.
    exists (console_log (submitting targetAddr)
            :: api_put (targetAddr ++ "/v1/sys/unseal") key
            :: console_log (unseal_progress targetAddr (progress unsealRes)
                                            (t unsealRes))
            :: tr').
    rewrite Htr. split; [reflexivity|exact Hnone].
  - right.
    exists [console_log (submitting targetAddr);
            api_put (targetAddr ++ "/v1/sys/unseal") key].
    split; reflexivity.
Qed.

(** A run says at most once how it ended, and says it last: of the
    lines "already unsealed", "now UNSEALED" and the error lines of the
    catch block a run writes at most one, as its last event.  In
    particular no error follows a "now UNSEALED". *)
Theorem run_closes_once_and_last
        (cfg : config) (w : World) (targetAddr : string) :
  filter closes_run (trace (checkAndUnseal cfg w targetAddr)) = []
  \/ exists tr ev,
       trace (checkAndUnseal cfg w targetAddr) = (tr ++ [ev])%list
       /\ closes_run ev = true
       /\ filter closes_run tr = [].
Proof.
  rewrite checkAndUnseal_paths. cbn zeta.
  destruct (get_status w _) as [statusRes|e].
  - destruct (truthy (sealed statusRes)).
    + pose proof (getUnsealKeys_closes_nothing cfg w) as Qnone.
      unfold trace in Qnone.
      destruct (getUnsealKeys cfg w) as [fetch [unsealKeys|e]]; cbn [fst] in *.
      * pose proof (submit_closes w targetAddr (keysToUse unsealKeys statusRes) [])
          as Hloop.
        unfold trace, outcome in Hloop.
        destruct (submit w targetAddr [] _) as [loop [[]|e]];
          cbn [trace fst snd] in *.
        -- destruct Hloop as [Hnone|(tr & Hloop & Hnone)].
           ++ left. rewrite !filter_app, Qnone, Hnone. reflexivity.
           ++ right.
              exists ([console_log (checking targetAddr);
                       api_get (targetAddr ++ "/v1/sys/seal-status");
                       console_log (is_sealed targetAddr)] ++ fetch ++ tr)%list,
                     (console_log (now_unsealed targetAddr)).
              rewrite Hloop, <- !app_assoc. repeat split.
              rewrite !filter_app, Qnone, Hnone. reflexivity.
        -- right.
           exists ([console_log (checking targetAddr);
                    api_get (targetAddr ++ "/v1/sys/seal-status");
                    console_log (is_sealed targetAddr)] ++ fetch ++ loop)%list,
                  (reported targetAddr e).
           rewrite <- !app_assoc. repeat split.
           ++ apply reported_closes.
           ++ rewrite !filter_app, Qnone, Hloop. reflexivity.
      * right.
        exists ([console_log (checking targetAddr);
                 api_get (targetAddr ++ "/v1/sys/seal-status");
                 console_log (is_sealed targetAddr)] ++ fetch)%list,
               (reported targetAddr e).
        cbn [trace fst]. rewrite <- !app_assoc. repeat split.
        -- apply reported_closes.
        -- rewrite !filter_app, Qnone. reflexivity.
    + right. eexists _, _. cbn [trace fst]. repeat split.
  - right. eexists _, _. cbn [trace fst]. repeat split.
    apply reported_closes.
Qed.

(** ** The sweep and the configured list *)

Lemma forEach_map {A B C : Type} (f : nat -> A -> B) (g : B -> C) (h : A -> C)
      (arr : list A) (i : nat) :
  (forall j x, g (f j x) = h x) ->
  map g (forEach f i arr) = map h arr.
Proof.
  intros Hgf. revert i.
  induction arr as [|x rest IH]; intros i; cbn; [reflexivity|].
  rewrite Hgf, IH. reflexivity.
Qed.

(** A sweep probes the configured addresses one by one in the order of
    the list, each occurrence once and by its own run: nothing is
    skipped, merged or probed twice by one run, also when an address is
    listed twice or a run fails. *)
Theorem sweep_probes_each_listed_address (cfg : config) (worlds : nat -> World) :
  map (fun run => probes (trace run)) (sweep_runs (pollVaultNodes cfg worlds))
  = map (fun targetAddr => [targetAddr ++ "/v1/sys/seal-status"])
        (targetVaultAddrs cfg).
Proof.
  unfold pollVaultNodes.
  destruct (targetVaultAddrs cfg) as [|addr rest]; [reflexivity|].
  cbn [List.length Nat.eqb sweep_runs].
  apply forEach_map. intros j x. apply run_probes_once.
Qed.

(** ** The configuration *)

Lemma split_without_sep (sep : ascii) (s : string) :
  has_char sep s = false -> split sep s = [s].
Proof.
  induction s as [|c s IH]; cbn; [reflexivity|].
  intros H. apply orb_false_iff in H. destruct H as (Hc & Hs).
  rewrite Hc, (IH Hs). reflexivity.
Qed.

Lemma split_at_sep (sep : ascii) (s rest : string) :
  has_char sep s = false ->
  split sep (s ++ String sep rest) = s :: split sep rest.
Proof.
  induction s as [|c s IH]; cbn.
  - intros _. rewrite Ascii.eqb_refl. reflexivity.
  - intros H. apply orb_false_iff in H. destruct H as (Hc & Hs).
    rewrite Hc, (IH Hs). reflexivity.
Qed.

Lemma split_pieces_without_sep (sep : ascii) (s : string) :
  Forall (fun piece => has_char sep piece = false) (split sep s).
Proof.
  induction s as [|c s IH]; cbn; [repeat constructor|].
  destruct (Ascii.eqb c sep) eqn:Hc.
  - constructor; [reflexivity|exact IH].
  - destruct (split sep s) as [|piece pieces].
    + repeat constructor. cbn. rewrite Hc. reflexivity.
    + inversion IH; subst. constructor; [|assumption].
      cbn. rewrite Hc. assumption.
Qed.

Lemma split_concat (l : list string) :
  l <> [] ->
  Forall (fun addr => has_char "," addr = false) l ->
  split "," (String.concat "," l) = l.
Proof.
  induction l as [|addr rest IH]; intros Hne Hall; [contradiction Hne; reflexivity|].
  inversion Hall as [|? ? Haddr Hrest]; subst.
  destruct rest as [|next rest].
  - cbn. apply split_without_sep. exact Haddr.
  - change (String.concat "," (addr :: next :: rest))
      with (addr ++ String "," (String.concat "," (next :: rest))).
    rewrite split_at_sep by exact Haddr.
    rewrite IH; [reflexivity|discriminate|exact Hrest].
Qed.

(** Writing a list of addresses into [TARGET_VAULT_ADDRS], joined by
    commas, and parsing it gives the list back, as long as no address is
    empty or holds a comma. *)
Theorem target_list_round_trip (l : list string) :
  Forall (fun addr => addr <> "" /\ has_char "," addr = false) l ->
  parseTargetVaultAddrs (Some (String.concat "," l)) = l.
Proof.
  intros Hall. unfold parseTargetVaultAddrs.
  assert (Henv : env_or (Some (String.concat "," l)) "" = String.concat "," l).
  { unfold env_or. destruct (String.concat "," l); reflexivity. }
  rewrite Henv.
  destruct l as [|addr rest]; [reflexivity|].
  rewrite split_concat; [|discriminate|].
  - apply forallb_filter_id. apply forallb_forall. intros x Hx.
    rewrite Forall_forall in Hall. apply nonempty_true. apply (Hall x Hx).
  - apply Forall_forall. intros x Hx.
    rewrite Forall_forall in Hall. apply (Hall x Hx).
Qed.

Lemma target_list_round_trip_witness :
  parseTargetVaultAddrs
    (Some (String.concat "," ["https://vault-0:8200"; "https://vault-1:8200"]))
  = ["https://vault-0:8200"; "https://vault-1:8200"].
Proof.
  apply target_list_round_trip.
  repeat constructor; discriminate.
Defined.

(** No address of the parsed target list holds a comma. *)
Theorem parsed_addresses_hold_no_comma (v : option string) :
  Forall (fun addr => has_char "," addr = false) (parseTargetVaultAddrs v).
Proof.
  unfold parseTargetVaultAddrs.
  apply Forall_forall. intros addr Hin. apply filter_In in Hin.
  pose proof (split_pieces_without_sep "," (env_or v "")) as Hpieces.
  rewrite Forall_forall in Hpieces. apply Hpieces. apply Hin.
Qed.

(** For the configuration a variable set to the empty string is an
    unset variable: every option it reads falls back to its default, the
    target list to the empty list. *)
Theorem empty_variable_is_unset (env : environment) :
  Config.load (without_empty env) = Config.load env.
Proof.
  unfold Config.load, parseTargetVaultAddrs, without_empty.
  destruct (env "PRIMARY_VAULT_ADDR") as [[|? ?]|];
    destruct (env "JWT_TOKEN_PATH") as [[|? ?]|];
    destruct (env "K8S_AUTH_ROLE") as [[|? ?]|];
    destruct (env "VAULT_NAMESPACE") as [[|? ?]|];
    destruct (env "UNSEAL_KEYS_PATH") as [[|? ?]|];
    destruct (env "TARGET_VAULT_ADDRS") as [[|? ?]|];
    reflexivity.
Qed.
